(** * nltk.lm.vocabulary: a frequency-filtered vocabulary

    Shallow embedding of [src/nltk/lm/vocabulary.py].

    - Tokens are Python [str] values, modelled as [string]; counts are
      Python integers (unbounded), modelled as [Z].
    - [collections.Counter] is an insertion-ordered dictionary; since
      [Vocabulary.__iter__] walks it in key order it is an association list
      whose keys are pairwise distinct ([Counter.wf]).
    - A method of [Vocabulary] is a computation in a state-and-exception
      monad whose state is the object [self]; a run gives the result or the
      Python exception raised, and the object as the call leaves it. *)

From Stdlib Require Import String ZArith List Bool Lia Permutation DecimalString.
From ExtLib Require Import Structures.Monad Structures.MonadState Structures.MonadExc.
From ExtLib Require Import Data.Monads.StateMonad Data.Monads.EitherMonad.
Import ListNotations.
Import MonadNotation.
Local Open Scope monad_scope.
Local Open Scope Z_scope.

(** ** Monadic loops *)

Section Loops.
Context {m : Type -> Type} {Mm : Monad m}.

(** [for x in xs: body(x)] *)
Fixpoint for_each {A} (xs : list A) (body : A -> m unit) : m unit :=
  match xs with
  | [] => ret tt
  | x :: xs' => body x ;; for_each xs' body
  end.

(** [(x for x in xs if cond(x))], run to exhaustion *)
Fixpoint filter_m {A} (cond : A -> m bool) (xs : list A) : m (list A) :=
  match xs with
  | [] => ret (@nil A)
  | x :: xs' =>
      b <- cond x ;;
      rest <- filter_m cond xs' ;;
      ret (if (b : bool) then x :: rest else rest)
  end.

(** [(f(x) for x in xs)], run to exhaustion *)
Fixpoint map_m {A B} (f : A -> m B) (xs : list A) : m (list B) :=
  match xs with
  | [] => ret (@nil B)
  | x :: xs' =>
      y <- f x ;;
      rest <- map_m f xs' ;;
      ret (y :: rest)
  end.
End Loops.

(** ** [collections.Counter]

    The part of the standard library's [Counter] that [Vocabulary] calls,
    for string keys: item access (with [__missing__]), item assignment,
    [update] from an iterable of tokens, truth value and key iteration. *)

Module Counter.

Definition t := list (string * Z).

(** [Counter()] *)
Definition empty : t := [].

Definition keys (c : t) : list string := map fst c.

(** A dictionary holds each key once. *)
Definition wf (c : t) : Prop := NoDup (keys c).

(** The hash-table probe: the entry stored under [k], if any. *)
Fixpoint find (c : t) (k : string) : option Z :=
  match c with
  | [] => None
  | (k', n) :: c' => if (k =? k')%string then Some n else find c' k
  end.

(** Assignment [c[k] = n]: an existing key keeps its position, a new key
    goes to the end. *)
Fixpoint store (c : t) (k : string) (n : Z) : t :=
  match c with
  | [] => [(k, n)]
  | (k', n') :: c' =>
      if (k =? k')%string then (k', n) :: c' else (k', n') :: store c' k n
  end.

(** [Counter.__missing__]: the count of a missing key is zero; the key is
    not added. *)
Definition __missing__ (k : string) : state t Z := ret 0.

(** [dict.__getitem__], which hands a missing key to [__missing__]. *)
Definition __getitem__ (k : string) : state t Z :=
  c <- get ;;
  match find c k with
  | Some n => ret n
  | None => __missing__ k
  end.

(** [dict.get(k, default)] *)
Definition get_ (k : string) (default : Z) : state t Z :=
  c <- get ;;
  ret (match find c k with Some n => n | None => default end).

Definition __setitem__ (k : string) (n : Z) : state t unit :=
  c <- get ;; put (store c k n).

(** [_count_elements(mapping, iterable)]:
    [for elem in iterable: mapping[elem] = mapping.get(elem, 0) + 1] *)
Definition _count_elements (iterable : list string) : state t unit :=
  for_each iterable (fun elem =>
    n <- get_ elem 0 ;;
    __setitem__ elem (n + 1)).

(** [Counter.update(iterable)] for an iterable of tokens. *)
Definition update (iterable : list string) : state t unit :=
  _count_elements iterable.

(** Truth value of a dictionary: it has at least one key. *)
Definition __bool__ : state t bool :=
  c <- get ;;
  ret (match c with [] => false | _ :: _ => true end).

(** [iter(c)], run to exhaustion: the keys in insertion order. *)
Definition __iter__ : state t (list string) :=
  c <- get ;; ret (keys c).

(** [c == other], which for a counter is the comparison of dictionaries
    (the module imports [Iterable] from [collections], so it runs on the
    Python versions where [Counter] has no comparison of its own): the two
    have as many keys, and each key of [c] is a key of [other] with an
    equal value. *)
Definition __eq__ (other : t) : state t bool :=
  c <- get ;;
  ret ((length c =? length other)%nat
       && forallb (fun kn : string * Z =>
                     match find other (fst kn) with
                     | Some n' => snd kn =? n'
                     | None => false
                     end) c).

End Counter.

(** The stored count of a token: its entry in [counts], 0 when there is
    none. *)
Definition stored_count (c : Counter.t) (t : string) : Z :=
  match Counter.find c t with
  | Some n => n
  | None => 0
  end.

(** ** Exceptions and dynamically typed arguments *)

Inductive pytype := TStr | TInt | TNoneType | TIterable.

(** What a caller can pass to [lookup]: a string, or some iterable with its
    elements in order, or a value that is neither (an integer, [None]). *)
#[warnings="-register-all"]
Inductive pyobj :=
| PyStr (s : string)
| PyInt (n : Z)
| PyNone
| PyIter (items : list pyobj).

Definition type (o : pyobj) : pytype :=
  match o with
  | PyStr _ => TStr
  | PyInt _ => TInt
  | PyNone => TNoneType
  | PyIter _ => TIterable
  end.

(** [ValueError] carries the rejected cutoff and [TypeError] the offending
    type, the arguments of the two message templates. *)
Inductive exc :=
| ValueError (got : Z)
| TypeError (got : pytype).

(** ** The [Vocabulary] object *)

Record Vocabulary := mkVocabulary {
  counts : Counter.t;
  unk_label : string;
  _cutoff : Z
}.

Definition method := eitherT exc (state Vocabulary).

(** Running a method on the object [self]. *)
Definition run {A} (c : method A) (self : Vocabulary)
  : (exc + A) * Vocabulary :=
  runState (unEitherT c) self.

(** [self.counts.op(...)]: run a [Counter] method on the attribute; the
    counter is mutated in place, so its new value is stored back. *)
Definition self_counts {A} (op : state Counter.t A) : method A :=
  self <- get ;;
  let (a, c') := runState op (counts self) in
  put (mkVocabulary c' (unk_label self) (_cutoff self)) ;;
  ret a.

(** What [Vocabulary.__init__] can be given as [counts]. *)
Inductive counts_arg :=
| ArgCounter (c : Counter.t)
| ArgIterable (tokens : list string)
| ArgNone.

Definition default_unk_cutoff : Z := 1.
Definition default_unk_label : string := "<UNK>".

(** [Vocabulary(counts, unk_cutoff, unk_label)]: the object when [__init__]
    returns, the exception when it raises. *)
Definition __init__ (counts : counts_arg) (unk_cutoff : Z) (unk_label : string)
  : exc + Vocabulary :=
  let self_counts :=
    match counts with
    | ArgCounter c => c
    | ArgIterable tokens => execState (Counter.update tokens) Counter.empty
    | ArgNone => Counter.empty
    end in
  if unk_cutoff <? 1 then inl (ValueError unk_cutoff)
  else inr (mkVocabulary self_counts unk_label unk_cutoff).

(** The read-only property [cutoff]. *)
Definition cutoff : method Z :=
  self <- get ;; ret (_cutoff self).

(** [update] hands its arguments to [Counter.update]; the call with one
    iterable of tokens is the one modelled. It returns [None]. *)
Definition update (tokens : list string) : method unit :=
  self_counts (Counter.update tokens).

Definition __getitem__ (item : string) : method Z :=
  self <- get ;;
  if (item =? unk_label self)%string then ret (_cutoff self)
  else self_counts (Counter.__getitem__ item).

Definition __contains__ (item : string) : method bool :=
  n <- __getitem__ item ;;
  c <- cutoff ;;
  ret (n >=? c).

(** [list(iter(self))]: the chain of the filtering generator over
    [self.counts] and of the one-element or empty list, chosen when
    [__iter__] is called; the iterator is run to exhaustion with no update
    in between. *)
Definition __iter__ : method (list string) :=
  keys <- self_counts Counter.__iter__ ;;
  nonempty <- self_counts Counter.__bool__ ;;
  self <- get ;;
  let last := if nonempty then [unk_label self] else [] in
  items <- filter_m __contains__ keys ;;
  ret (items ++ last).

(** [sum(1 for _ in self)] *)
Definition __len__ : method Z :=
  items <- __iter__ ;;
  ret (fold_left Z.add (map (fun _ => 1) items) 0).

(** [self == other] for another vocabulary: the conjunction of the three
    comparisons, each made only when the ones before it hold. *)
Definition __eq__ (other : Vocabulary) : method bool :=
  self <- get ;;
  if negb (unk_label self =? unk_label other)%string then ret false
  else
    c <- cutoff ;;
    if negb (c =? _cutoff other) then ret false
    else self_counts (Counter.__eq__ (counts other)).

(** [str(n)] for an integer: its decimal digits, after a minus sign when it
    is negative. *)
Definition str_int (n : Z) : string :=
  NilZero.string_of_int (Z.to_int n).

(** [__str__], for an object of class [Vocabulary] itself. *)
Definition __str__ : method string :=
  c <- cutoff ;;
  self <- get ;;
  n <- __len__ ;;
  ret ("<Vocabulary with cutoff=" ++ str_int c
       ++ " unk_label='" ++ unk_label self
       ++ "' and " ++ str_int n ++ " items>")%string.

(** The result of [lookup]: a string, or a generator that has not run yet,
    given by the words it is still to look up. *)
Inductive looked_up :=
| Word (w : string)
| Gen (words : list pyobj).

(** [singledispatch] on the type of [words]: the [str] implementation, the
    [Iterable] one, and the default that raises. *)
Definition _dispatched_lookup (words : pyobj) : method looked_up :=
  match words with
  | PyStr word =>
      b <- __contains__ word ;;
      if b then ret (Word word)
      else (self <- get ;; ret (Word (unk_label self)))
  | PyIter ws => ret (Gen ws)
  | _ => raise (TypeError (type words))
  end.

Definition lookup (words : pyobj) : method looked_up :=
  _dispatched_lookup words.

(** [list(g)] for the generator [g = (_dispatched_lookup(w, vocab) for w in
    words)]: each word is dispatched when the generator reaches it, in the
    state the vocabulary has then. *)
Definition list_ (g : list pyobj) : method (list looked_up) :=
  map_m _dispatched_lookup g.

(** The arguments [_dispatched_lookup] has an implementation for. *)
Definition supported (o : pyobj) : bool :=
  match type o with
  | TStr | TIterable => true
  | _ => false
  end.

(** The states a program can reach: a successful construction from a
    well-formed argument, then any number of updates. *)
Definition wf_arg (a : counts_arg) : Prop :=
  match a with
  | ArgCounter c => Counter.wf c
  | _ => True
  end.

Inductive reachable : Vocabulary -> Prop :=
| reach_init a c l v :
    wf_arg a -> __init__ a c l = inr v -> reachable v
| reach_update v tokens v' :
    reachable v -> run (update tokens) v = (inr tt, v') -> reachable v'.

(** ** Functions of the state that the methods are shown to compute *)

(** The effective count, the value of [self[item]]. *)
Definition count_of (v : Vocabulary) (item : string) : Z :=
  if (item =? unk_label v)%string then _cutoff v
  else stored_count (counts v) item.

(** The membership decision, the value of [item in self]. *)
Definition member (v : Vocabulary) (item : string) : bool :=
  count_of v item >=? _cutoff v.

(** The value of [list(self)]. *)
Definition iter_of (v : Vocabulary) : list string :=
  filter (member v) (Counter.keys (counts v))
  ++ match counts v with [] => [] | _ :: _ => [unk_label v] end.

(** One round of the loop of [_count_elements]. *)
Definition bump (c : Counter.t) (elem : string) : Counter.t :=
  Counter.store c elem (stored_count c elem + 1).

(** The number of distinct tokens in [counts] whose stored count reaches
    the cutoff. *)
Definition distinct_at_cutoff (v : Vocabulary) : Z :=
  Z.of_nat (length (nodup string_dec
    (filter (fun t => stored_count (counts v) t >=? _cutoff v)
            (Counter.keys (counts v))))).

(** Vocabularies with one label, one cutoff and the same mapping. *)
Definition same_vocabulary (v w : Vocabulary) : Prop :=
  unk_label v = unk_label w
  /\ _cutoff v = _cutoff w
  /\ forall t, Counter.find (counts v) t = Counter.find (counts w) t.

(** The vocabulary of the module's docstring. *)
Definition words : list string :=
  ["a"; "c"; "-"; "d"; "c"; "a"; "b"; "r"; "a"; "c"; "d"]%string.

Definition vocab : Vocabulary :=
  mkVocabulary
    (execState (Counter.update words) Counter.empty) default_unk_label 2.

(** A vocabulary whose counter has the unknown label among its keys, below
    the cutoff. *)
Definition vocab_unk_key : Vocabulary :=
  mkVocabulary [("<UNK>", 1); ("a", 3)]%string default_unk_label 2.

(** The docstring's vocabulary with its counter in another order. *)
Definition vocab_reordered : Vocabulary :=
  mkVocabulary
    [("c", 3); ("a", 3); ("r", 1); ("b", 1); ("d", 2); ("-", 1)]%string
    default_unk_label 2.

(** ** The docstring's examples *)

Example vocab_init : __init__ (ArgIterable words) 2 default_unk_label = inr vocab.
Proof. reflexivity. Qed.

Example vocab_counts :
  counts vocab
  = [("a", 3); ("c", 3); ("-", 1); ("d", 2); ("b", 1); ("r", 1)]%string.
Proof. reflexivity. Qed.

Example vocab_getitem_c : run (__getitem__ "c") vocab = (inr 3, vocab).
Proof. reflexivity. Qed.

Example vocab_contains_b : run (__contains__ "b") vocab = (inr false, vocab).
Proof. reflexivity. Qed.

Example vocab_getitem_aliens : run (__getitem__ "aliens") vocab = (inr 0, vocab).
Proof. reflexivity. Qed.

Example vocab_iter :
  run __iter__ vocab = (inr ["a"; "c"; "d"; "<UNK>"]%string, vocab).
Proof. reflexivity. Qed.

Example vocab_len : run __len__ vocab = (inr 4, vocab).
Proof. reflexivity. Qed.

Example vocab_str :
  run __str__ vocab
  = (inr "<Vocabulary with cutoff=2 unk_label='<UNK>' and 4 items>"%string,
     vocab).
Proof. reflexivity. Qed.

Example vocab_eq_self : run (__eq__ vocab) vocab = (inr true, vocab).
Proof. reflexivity. Qed.

Example vocab_update_b :
  exists v', run (update ["b"; "b"; "c"]%string) vocab = (inr tt, v')
             /\ run (__getitem__ "b") v' = (inr 3, v').
Proof. eexists; split; reflexivity. Qed.

(** ** How computations run *)

Section Runs.
Context {A B : Type}.

Lemma run_ret (a : A) v : run (ret a) v = (inr a, v).
Proof. reflexivity. Qed.

Lemma run_raise (e : exc) v : run (raise e : method A) v = (inl e, v).
Proof. reflexivity. Qed.

Lemma run_bind (c : method A) (k : A -> method B) v :
  run (bind c k) v
  = match run c v with
    | (inl e, v') => (inl e, v')
    | (inr a, v') => run (k a) v'
    end.
Proof.
  unfold run. cbn.
  destruct (runState (unEitherT c) v) as [[e|a] v']; reflexivity.
Qed.

(** A computation that returns [a] and leaves the object alone can be
    replaced by its value in front of its continuation. *)
Lemma run_bind_pure (c : method A) (k : A -> method B) v a :
  run c v = (inr a, v) -> run (bind c k) v = run (k a) v.
Proof. intros H. rewrite run_bind, H. reflexivity. Qed.
End Runs.

Lemma run_get v : run get v = (inr v, v).
Proof. reflexivity. Qed.

Lemma vocabulary_eta v :
  mkVocabulary (counts v) (unk_label v) (_cutoff v) = v.
Proof. destruct v; reflexivity. Qed.

Lemma run_self_counts {A} (op : state Counter.t A) v :
  run (self_counts op) v
  = (inr (fst (runState op (counts v))),
     mkVocabulary (snd (runState op (counts v))) (unk_label v) (_cutoff v)).
Proof.
  unfold self_counts, run. cbn.
  destruct (runState op (counts v)) as [a c']. reflexivity.
Qed.

(** *** The counter *)

Lemma run_counter_getitem c k :
  runState (Counter.__getitem__ k) c = (stored_count c k, c).
Proof.
  unfold Counter.__getitem__, stored_count. cbn.
  destruct (Counter.find c k); reflexivity.
Qed.

Lemma run_counter_iter c :
  runState Counter.__iter__ c = (Counter.keys c, c).
Proof. reflexivity. Qed.

Lemma run_counter_bool c :
  runState Counter.__bool__ c
  = (match c with [] => false | _ :: _ => true end, c).
Proof. reflexivity. Qed.

Lemma run_counter_update tokens : forall c,
  runState (Counter.update tokens) c = (tt, fold_left bump tokens c).
Proof.
  unfold Counter.update, Counter._count_elements.
  induction tokens as [|k tokens IH]; intros c.
  - reflexivity.
  - cbn. cbn in IH. rewrite IH. reflexivity.
Qed.

(** *** The queries *)

Lemma run_cutoff v : run cutoff v = (inr (_cutoff v), v).
Proof. reflexivity. Qed.

Lemma run_getitem v item :
  run (__getitem__ item) v = (inr (count_of v item), v).
Proof.
  unfold __getitem__, count_of.
  rewrite run_bind, run_get.
  destruct (item =? unk_label v)%string.
  - reflexivity.
  - rewrite run_self_counts, run_counter_getitem. cbn [fst snd].
    rewrite vocabulary_eta. reflexivity.
Qed.

Lemma run_contains v item :
  run (__contains__ item) v = (inr (member v item), v).
Proof.
  unfold __contains__.
  rewrite (run_bind_pure _ _ _ _ (run_getitem v item)).
  rewrite (run_bind_pure _ _ _ _ (run_cutoff v)).
  reflexivity.
Qed.

Lemma run_filter_m {A} (cond : A -> method bool) (p : A -> bool) v :
  (forall x, run (cond x) v = (inr (p x), v)) ->
  forall xs, run (filter_m cond xs) v = (inr (filter p xs), v).
Proof.
  intros Hcond. induction xs as [|x xs IH].
  - reflexivity.
  - cbn [filter_m filter].
    rewrite (run_bind_pure _ _ _ _ (Hcond x)).
    rewrite (run_bind_pure _ _ _ _ IH).
    rewrite run_ret. destruct (p x); reflexivity.
Qed.

Lemma run_map_m {A B} (f : A -> method B) (g : A -> B) v :
  (forall x, run (f x) v = (inr (g x), v)) ->
  forall xs, run (map_m f xs) v = (inr (map g xs), v).
Proof.
  intros Hf. induction xs as [|x xs IH].
  - reflexivity.
  - cbn [map_m map].
    rewrite (run_bind_pure _ _ _ _ (Hf x)).
    rewrite (run_bind_pure _ _ _ _ IH).
    apply run_ret.
Qed.

Lemma run_iter v : run __iter__ v = (inr (iter_of v), v).
Proof.
  unfold __iter__, iter_of.
  rewrite run_bind, run_self_counts, run_counter_iter. cbn [fst snd].
  rewrite vocabulary_eta.
  rewrite run_bind, run_self_counts, run_counter_bool. cbn [fst snd].
  rewrite vocabulary_eta.
  rewrite run_bind, run_get.
  rewrite (run_bind_pure _ _ _ _ (run_filter_m _ _ v (run_contains v) _)).
  rewrite run_ret.
  destruct (counts v); reflexivity.
Qed.

Lemma sum_ones {A} (xs : list A) : forall acc,
  fold_left Z.add (map (fun _ => 1) xs) acc = acc + Z.of_nat (length xs).
Proof.
  induction xs as [|x xs IH]; intros acc.
  - cbn. lia.
  - cbn [map fold_left length]. rewrite IH. lia.
Qed.

Lemma run_len v :
  run __len__ v = (inr (Z.of_nat (length (iter_of v))), v).
Proof.
  unfold __len__.
  rewrite (run_bind_pure _ _ _ _ (run_iter v)), run_ret, sum_ones.
  reflexivity.
Qed.

Lemma run_lookup_str v word :
  run (lookup (PyStr word)) v
  = (inr (Word (if member v word then word else unk_label v)), v).
Proof.
  unfold lookup, _dispatched_lookup.
  rewrite (run_bind_pure _ _ _ _ (run_contains v word)).
  destruct (member v word).
  - apply run_ret.
  - rewrite run_bind, run_get. apply run_ret.
Qed.

Lemma run_update v tokens :
  run (update tokens) v
  = (inr tt,
     mkVocabulary (fold_left bump tokens (counts v)) (unk_label v) (_cutoff v)).
Proof.
  unfold update. rewrite run_self_counts, run_counter_update. reflexivity.
Qed.

(** ** The counter as a dictionary *)

Section CounterFacts.
Local Open Scope string_scope.

Lemma find_store_same c k n : Counter.find (Counter.store c k n) k = Some n.
Proof.
  induction c as [|[k' n'] c IH]; cbn.
  - rewrite String.eqb_refl. reflexivity.
  - destruct (k =? k') eqn:E; cbn; rewrite E; [reflexivity | exact IH].
Qed.

Lemma find_store_other c k n k' :
  k' <> k -> Counter.find (Counter.store c k n) k' = Counter.find c k'.
Proof.
  intros Hne. induction c as [|[k0 n0] c IH]; cbn.
  - apply String.eqb_neq in Hne. rewrite Hne. reflexivity.
  - destruct (k =? k0) eqn:E; cbn.
    + apply String.eqb_eq in E. subst k0.
      apply String.eqb_neq in Hne. rewrite Hne. reflexivity.
    + rewrite IH. reflexivity.
Qed.

Lemma find_none_iff c k : Counter.find c k = None <-> ~ In k (Counter.keys c).
Proof.
  induction c as [|[k' n'] c IH]; cbn.
  - tauto.
  - destruct (String.eqb_spec k k') as [->|Hne].
    + split; [discriminate | intros H; exfalso; apply H; now left].
    + rewrite IH. split.
      * intros H [Heq|Hin]; [congruence | tauto].
      * intros H Hin. apply H. now right.
Qed.

Lemma keys_store_in c k n :
  In k (Counter.keys c) -> Counter.keys (Counter.store c k n) = Counter.keys c.
Proof.
  induction c as [|[k' n'] c IH]; cbn.
  - tauto.
  - intros Hin. destruct (String.eqb_spec k k') as [->|Hne]; cbn.
    + reflexivity.
    + f_equal. apply IH. destruct Hin; [congruence | assumption].
Qed.

Lemma keys_store_new c k n :
  ~ In k (Counter.keys c) ->
  Counter.keys (Counter.store c k n) = (Counter.keys c ++ [k])%list.
Proof.
  induction c as [|[k' n'] c IH]; cbn.
  - reflexivity.
  - intros Hnin. destruct (String.eqb_spec k k') as [->|Hne]; cbn.
    + exfalso. apply Hnin. now left.
    + f_equal. apply IH. tauto.
Qed.

Lemma in_keys_store c k n t :
  In t (Counter.keys (Counter.store c k n)) <-> In t (Counter.keys c) \/ t = k.
Proof.
  destruct (in_dec string_dec k (Counter.keys c)) as [Hin|Hnin].
  - rewrite keys_store_in by assumption.
    split; [tauto | intros [H| ->]; assumption].
  - rewrite keys_store_new by assumption.
    rewrite in_app_iff. cbn. intuition congruence.
Qed.

Lemma wf_store c k n : Counter.wf c -> Counter.wf (Counter.store c k n).
Proof.
  unfold Counter.wf. intros Hwf.
  destruct (in_dec string_dec k (Counter.keys c)) as [Hin|Hnin].
  - rewrite keys_store_in by assumption. exact Hwf.
  - rewrite keys_store_new by assumption.
    apply NoDup_app; [exact Hwf | repeat constructor; intros [] |].
    intros x Hx [<-|[]]. contradiction.
Qed.

Lemma stored_count_bump c k t :
  stored_count (bump c k) t
  = stored_count c t + (if string_dec k t then 1 else 0).
Proof.
  unfold bump, stored_count at 1.
  destruct (string_dec k t) as [->|Hne].
  - rewrite find_store_same. reflexivity.
  - rewrite find_store_other by congruence.
    fold (stored_count c t). lia.
Qed.

(** After the loop of [_count_elements], each count has grown by the
    number of times its token was seen. *)
Lemma stored_count_tally tokens t : forall c,
  stored_count (fold_left bump tokens c) t
  = stored_count c t + Z.of_nat (count_occ string_dec tokens t).
Proof.
  induction tokens as [|k tokens IH]; intros c; cbn [fold_left count_occ].
  - lia.
  - rewrite IH, stored_count_bump.
    destruct (string_dec k t); lia.
Qed.

Lemma in_keys_tally tokens t : forall c,
  In t (Counter.keys (fold_left bump tokens c))
  <-> In t (Counter.keys c) \/ In t tokens.
Proof.
  induction tokens as [|k tokens IH]; intros c; cbn [fold_left In].
  - tauto.
  - rewrite IH. unfold bump. rewrite in_keys_store.
    intuition congruence.
Qed.

Lemma wf_tally tokens : forall c,
  Counter.wf c -> Counter.wf (fold_left bump tokens c).
Proof.
  induction tokens as [|k tokens IH]; intros c Hwf; cbn [fold_left].
  - exact Hwf.
  - apply IH, wf_store, Hwf.
Qed.
End CounterFacts.

(** ** Invariants of the reachable states *)

Lemma init_inv a c l v :
  __init__ a c l = inr v -> _cutoff v = c /\ unk_label v = l /\ 1 <= c.
Proof.
  unfold __init__. destruct (Z.ltb_spec c 1); [discriminate|].
  intros [= <-]. cbn. auto.
Qed.

Lemma reachable_cutoff v : reachable v -> 1 <= _cutoff v.
Proof.
  induction 1 as [a c l v _ Hinit | v tokens v' _ IH Hrun].
  - apply init_inv in Hinit as (-> & _ & H). exact H.
  - rewrite run_update in Hrun. injection Hrun as <-. exact IH.
Qed.

Lemma reachable_wf v : reachable v -> Counter.wf (counts v).
Proof.
  induction 1 as [a c l v Hwf Hinit | v tokens v' _ IH Hrun].
  - unfold __init__ in Hinit. destruct (c <? 1); [discriminate|].
    injection Hinit as <-. cbn [counts].
    destruct a as [c0|tokens|]; cbn in *.
    + exact Hwf.
    + unfold execState. rewrite run_counter_update. cbn [snd].
      apply wf_tally. constructor.
    + constructor.
  - rewrite run_update in Hrun. injection Hrun as <-. cbn [counts].
    apply wf_tally, IH.
Qed.

(** ** Membership and counts *)

(** C1. For a token [t] other than [unk_label], [t in vocab] returns [True]
    exactly when the stored count of [t] in [counts] is at least the cutoff,
    the stored count of a token with no entry being 0; the test leaves the
    vocabulary as it was. *)
Theorem contains_iff_stored_count_ge_cutoff v t :
  t <> unk_label v ->
  run (__contains__ t) v
  = (inr (match Counter.find (counts v) t with Some n => n | None => 0 end
          >=? _cutoff v), v)
  /\ (run (__contains__ t) v = (inr true, v)
      <-> _cutoff v <= stored_count (counts v) t).
Proof.
  intros Hne.
  assert (Hrun : run (__contains__ t) v
                 = (inr (stored_count (counts v) t >=? _cutoff v), v)).
  { rewrite run_contains. unfold member, count_of.
    apply String.eqb_neq in Hne. rewrite Hne. reflexivity. }
  split; [exact Hrun|].
  rewrite Hrun, <- Z.geb_le. split.
  - intros [= ->]. reflexivity.
  - intros ->. reflexivity.
Qed.

Lemma contains_iff_stored_count_ge_cutoff_witness :
  "d"%string <> unk_label vocab
  /\ run (__contains__ "d") vocab = (inr true, vocab)
  /\ _cutoff vocab <= stored_count (counts vocab) "d".
Proof.
  assert (Hne : "d"%string <> unk_label vocab) by (vm_compute; discriminate).
  split; [exact Hne|].
  destruct (contains_iff_stored_count_ge_cutoff vocab "d" Hne) as [Hrun Hiff].
  split; [exact Hrun|]. apply Hiff. exact Hrun.
Defined.

(** C4. The count lookup [vocab[item]] returns the cutoff when [item] is
    [unk_label], whatever [counts] stores under that key, and otherwise the
    count stored in [counts], which is 0 for a token never observed. *)
Theorem getitem_cutoff_or_stored_count v :
  run (__getitem__ (unk_label v)) v = (inr (_cutoff v), v)
  /\ (forall item, item <> unk_label v ->
        run (__getitem__ item) v = (inr (stored_count (counts v) item), v))
  /\ (forall item, item <> unk_label v ->
        ~ In item (Counter.keys (counts v)) ->
        run (__getitem__ item) v = (inr 0, v)).
Proof.
  assert (Hother : forall item, item <> unk_label v ->
            run (__getitem__ item) v = (inr (stored_count (counts v) item), v)).
  { intros item Hne. rewrite run_getitem. unfold count_of.
    apply String.eqb_neq in Hne. rewrite Hne. reflexivity. }
  split; [|split].
  - rewrite run_getitem. unfold count_of.
    rewrite String.eqb_refl. reflexivity.
  - exact Hother.
  - intros item Hne Hnin. rewrite (Hother item Hne).
    apply find_none_iff in Hnin. unfold stored_count. rewrite Hnin.
    reflexivity.
Qed.

Lemma getitem_cutoff_or_stored_count_witness :
  run (__getitem__ "<UNK>") vocab_unk_key = (inr 2, vocab_unk_key)
  /\ stored_count (counts vocab_unk_key) "<UNK>" = 1
  /\ run (__getitem__ "a") vocab_unk_key = (inr 3, vocab_unk_key)
  /\ run (__getitem__ "aliens") vocab_unk_key = (inr 0, vocab_unk_key).
Proof.
  destruct (getitem_cutoff_or_stored_count vocab_unk_key) as (Hunk & Hkey & Hnew).
  split; [exact Hunk|]. split; [reflexivity|]. split.
  - apply (Hkey "a"%string). vm_compute; discriminate.
  - apply (Hnew "aliens"%string).
    + vm_compute; discriminate.
    + vm_compute. intros [H|[H|[]]]; discriminate H.
Defined.

(** C9. In every state of a vocabulary, so in every reachable one, the
    unknown label passes the membership test and [lookup(unk_label)] returns
    [unk_label]. This holds for a vocabulary with empty [counts] too, whose
    iteration yields nothing. *)
Theorem unk_label_always_member v :
  run (__contains__ (unk_label v)) v = (inr true, v)
  /\ run (lookup (PyStr (unk_label v))) v = (inr (Word (unk_label v)), v)
  /\ (forall c l,
        let v0 := mkVocabulary Counter.empty l c in
        run (__contains__ l) v0 = (inr true, v0)
        /\ run __iter__ v0 = (inr [], v0)).
Proof.
  assert (Hmem : forall u, member u (unk_label u) = true).
  { intros u. unfold member, count_of. rewrite String.eqb_refl.
    apply Z.geb_le. lia. }
  split; [|split].
  - rewrite run_contains, Hmem. reflexivity.
  - rewrite run_lookup_str, Hmem. reflexivity.
  - intros c l v0. split.
    + rewrite run_contains. pose proof (Hmem v0) as H.
      change (unk_label v0) with l in H. rewrite H. reflexivity.
    + rewrite run_iter. reflexivity.
Qed.

(** ** Construction *)

(** C7. [Vocabulary(counts, unk_cutoff, unk_label)] raises [ValueError]
    exactly when [unk_cutoff < 1]; it then gives no vocabulary, and when it
    succeeds the vocabulary's cutoff is [unk_cutoff]. *)
Theorem init_raises_iff_cutoff_below_one a c l :
  (__init__ a c l = inl (ValueError c) <-> c < 1)
  /\ (c < 1 -> forall v, __init__ a c l <> inr v)
  /\ (1 <= c -> exists v, __init__ a c l = inr v /\ _cutoff v = c)
  /\ (forall e, __init__ a c l = inl e -> e = ValueError c).
Proof.
  unfold __init__. destruct (Z.ltb_spec c 1) as [Hlt|Hge].
  - repeat split; try (intros; assumption || reflexivity).
    + intros _ v. discriminate.
    + intros H. lia.
    + intros e [= <-]. reflexivity.
  - repeat split.
    + discriminate.
    + intros H. lia.
    + intros H. lia.
    + intros _. eexists. split; reflexivity.
    + intros e. discriminate.
Qed.

Lemma init_raises_iff_cutoff_below_one_witness :
  __init__ (ArgIterable words) 0 default_unk_label = inl (ValueError 0)
  /\ exists v, __init__ (ArgIterable words) 2 default_unk_label = inr v
               /\ _cutoff v = 2.
Proof.
  split.
  - destruct (init_raises_iff_cutoff_below_one
                (ArgIterable words) 0 default_unk_label) as ([_ H] & _).
    apply H. lia.
  - destruct (init_raises_iff_cutoff_below_one
                (ArgIterable words) 2 default_unk_label) as (_ & _ & H & _).
    apply H. lia.
Defined.

(** ** Update *)

(** C6. [update(tokens)] returns nothing and leaves, for every token [t], a
    stored count equal to the one before the call plus the number of
    occurrences of [t] in [tokens]; the keys of [counts] afterwards are the
    old keys and the tokens seen, and the label and the cutoff are kept. *)
Theorem update_adds_occurrences v tokens :
  exists c',
    run (update tokens) v
    = (inr tt, mkVocabulary c' (unk_label v) (_cutoff v))
    /\ (forall t,
          stored_count c' t
          = stored_count (counts v) t
            + Z.of_nat (count_occ string_dec tokens t))
    /\ (forall t,
          In t (Counter.keys c')
          <-> In t (Counter.keys (counts v)) \/ In t tokens).
Proof.
  exists (fold_left bump tokens (counts v)).
  split; [apply run_update|]. split; intros t.
  - apply stored_count_tally.
  - apply in_keys_tally.
Qed.

Lemma update_adds_occurrences_witness :
  exists v',
    run (update ["b"; "b"; "c"]%string) vocab = (inr tt, v')
    /\ stored_count (counts v') "b" = 3
    /\ run (__contains__ "b") v' = (inr true, v').
Proof.
  destruct (update_adds_occurrences vocab ["b"; "b"; "c"]%string)
    as (c' & Hrun & Hcount & _).
  eexists. split; [exact Hrun|]. split.
  - cbn [counts]. rewrite Hcount. reflexivity.
  - rewrite run_contains. unfold member, count_of. cbn [counts unk_label _cutoff].
    rewrite Hcount. reflexivity.
Defined.

(** ** Queries do not write *)

Lemma dispatched_lookup_frame v words :
  snd (run (_dispatched_lookup words) v) = v.
Proof.
  destruct words as [w|n| |ws]; try reflexivity.
  apply (f_equal snd (run_lookup_str v w)).
Qed.

Lemma map_m_frame {A B} (f : A -> method B) v :
  (forall x, snd (run (f x) v) = v) ->
  forall xs, snd (run (map_m f xs) v) = v.
Proof.
  intros Hf. induction xs as [|x xs IH].
  - reflexivity.
  - cbn [map_m]. rewrite run_bind.
    specialize (Hf x). destruct (run (f x) v) as [[e|y] v1]; cbn in Hf; subst v1.
    + reflexivity.
    + rewrite run_bind.
      destruct (run (map_m f xs) v) as [[e|ys] v2]; cbn in IH; subst v2;
        reflexivity.
Qed.

(** C10. Count lookup, membership test, [lookup] (the call, and running the
    generator it returns), iteration and [len] leave [counts], the cutoff and
    [unk_label] as they were. In particular the count and the membership of
    a token never observed are 0 and [False] in a reachable vocabulary, and
    no key is added to [counts]. *)
Theorem queries_leave_vocabulary_unchanged v :
  (forall item, snd (run (__getitem__ item) v) = v)
  /\ (forall item, snd (run (__contains__ item) v) = v)
  /\ (forall words, snd (run (lookup words) v) = v)
  /\ (forall g, snd (run (list_ g) v) = v)
  /\ snd (run __iter__ v) = v
  /\ snd (run __len__ v) = v
  /\ (forall item,
        reachable v ->
        item <> unk_label v ->
        ~ In item (Counter.keys (counts v)) ->
        run (__getitem__ item) v = (inr 0, v)
        /\ run (__contains__ item) v = (inr false, v)).
Proof.
  split; [|split; [|split; [|split; [|split; [|split]]]]].
  - intros item. rewrite run_getitem. reflexivity.
  - intros item. rewrite run_contains. reflexivity.
  - intros ws. apply dispatched_lookup_frame.
  - intros g. apply map_m_frame. intros x. apply dispatched_lookup_frame.
  - rewrite run_iter. reflexivity.
  - rewrite run_len. reflexivity.
  - intros item Hreach Hne Hnin.
    apply String.eqb_neq in Hne. apply find_none_iff in Hnin.
    apply reachable_cutoff in Hreach.
    rewrite run_getitem, run_contains.
    unfold member, count_of, stored_count. rewrite Hne, Hnin. split.
    + reflexivity.
    + destruct (Z.geb_spec 0 (_cutoff v)); [lia | reflexivity].
Qed.

Lemma queries_leave_vocabulary_unchanged_witness :
  reachable vocab
  /\ run (__getitem__ "aliens") vocab = (inr 0, vocab)
  /\ run (__contains__ "aliens") vocab = (inr false, vocab).
Proof.
  assert (Hreach : reachable vocab).
  { apply (reach_init (ArgIterable words) 2 default_unk_label);
      [exact I | reflexivity]. }
  split; [exact Hreach|].
  destruct (queries_leave_vocabulary_unchanged vocab) as (_ & _ & _ & _ & _ & _ & H).
  apply (H "aliens"%string Hreach).
  - vm_compute; discriminate.
  - vm_compute. intros [H1|[H1|[H1|[H1|[H1|[H1|[]]]]]]]; discriminate H1.
Defined.

(** ** Lookup *)

(** Running the generator that [lookup] returns for a sequence of words. *)
Lemma run_list_words v ws :
  run (list_ (map PyStr ws)) v
  = (inr (map (fun w => Word (if member v w then w else unk_label v)) ws), v).
Proof.
  unfold list_. induction ws as [|w ws IH].
  - reflexivity.
  - cbn [map map_m].
    rewrite (run_bind_pure _ _ _ _ (run_lookup_str v w)).
    rewrite (run_bind_pure _ _ _ _ IH).
    apply run_ret.
Qed.

(** C5. [lookup] of one word returns the word when it is a member and
    [unk_label] otherwise. [lookup] of a sequence of words returns a
    generator which, when run, gives as many results as there are words, the
    i-th being the [lookup] of the i-th word. On the docstring's vocabulary
    the words p, a, r, d, b, c are looked up as <UNK>, a, <UNK>, d, <UNK>,
    c. *)
Theorem lookup_word_or_unk_label v :
  (forall w, run (__contains__ w) v = (inr true, v) ->
             run (lookup (PyStr w)) v = (inr (Word w), v))
  /\ (forall w, run (__contains__ w) v = (inr false, v) ->
                run (lookup (PyStr w)) v = (inr (Word (unk_label v)), v))
  /\ (forall ws,
        run (lookup (PyIter (map PyStr ws))) v = (inr (Gen (map PyStr ws)), v)
        /\ exists out,
             run (list_ (map PyStr ws)) v = (inr out, v)
             /\ length out = length ws
             /\ forall i w, nth_error ws i = Some w ->
                  exists r, run (lookup (PyStr w)) v = (inr r, v)
                            /\ nth_error out i = Some r)
  /\ run (list_ (map PyStr ["p"; "a"; "r"; "d"; "b"; "c"]%string)) vocab
     = (inr (map Word ["<UNK>"; "a"; "<UNK>"; "d"; "<UNK>"; "c"]%string),
        vocab).
Proof.
  split; [|split; [|split]].
  - intros w Hin. rewrite run_contains in Hin. injection Hin as Hin.
    rewrite run_lookup_str, Hin. reflexivity.
  - intros w Hin. rewrite run_contains in Hin. injection Hin as Hin.
    rewrite run_lookup_str, Hin. reflexivity.
  - intros ws. split; [reflexivity|].
    eexists. split; [apply run_list_words|]. split.
    + apply length_map.
    + intros i w Hw. eexists. split; [apply run_lookup_str|].
      rewrite nth_error_map, Hw. reflexivity.
  - reflexivity.
Qed.

Lemma lookup_word_or_unk_label_witness :
  run (__contains__ "a") vocab = (inr true, vocab)
  /\ run (lookup (PyStr "a")) vocab = (inr (Word "a"), vocab)
  /\ run (__contains__ "aliens") vocab = (inr false, vocab)
  /\ run (lookup (PyStr "aliens")) vocab = (inr (Word "<UNK>"), vocab).
Proof.
  destruct (lookup_word_or_unk_label vocab) as (Hin & Hout & _).
  assert (Ha : run (__contains__ "a") vocab = (inr true, vocab))
    by reflexivity.
  assert (Hb : run (__contains__ "aliens") vocab = (inr false, vocab))
    by reflexivity.
  split; [exact Ha|]. split; [exact (Hin "a"%string Ha)|].
  split; [exact Hb|]. exact (Hout "aliens"%string Hb).
Defined.




(** ** Iteration and size *)

Lemma count_occ_filter (p : string -> bool) (l : list string) (x : string) :
  count_occ string_dec (filter p l) x
  = if p x then count_occ string_dec l x else 0%nat.
Proof.
  induction l as [|y l IH]; cbn [filter count_occ].
  - destruct (p x); reflexivity.
  - destruct (p y) eqn:Hy; cbn [count_occ]; destruct (string_dec y x) as [->|Hne].
    + rewrite IH, Hy. reflexivity.
    + exact IH.
    + rewrite IH, Hy. reflexivity.
    + exact IH.
Qed.

Lemma member_unk_label v : member v (unk_label v) = true.
Proof.
  unfold member, count_of. rewrite String.eqb_refl. apply Z.geb_le. lia.
Qed.

Lemma member_other v t :
  t <> unk_label v -> member v t = (stored_count (counts v) t >=? _cutoff v).
Proof.
  intros Hne. unfold member, count_of.
  apply String.eqb_neq in Hne. rewrite Hne. reflexivity.
Qed.

(** Two filters that differ on one element of a duplicate-free list, kept by
    the first and dropped by the second, keep lists whose lengths differ by
    one. *)
Lemma length_filter_one_more (p q : string -> bool) (u : string) :
  p u = true -> q u = false -> (forall t, t <> u -> p t = q t) ->
  forall l, NoDup l -> In u l ->
  length (filter p l) = S (length (filter q l)).
Proof.
  intros Hp Hq Hpq. induction l as [|x l IH]; intros Hnd Hin.
  - destruct Hin.
  - inversion Hnd as [|? ? Hx Hnd']; subst. cbn [filter].
    destruct (string_dec x u) as [->|Hne].
    + rewrite Hp, Hq. cbn [length]. f_equal. f_equal.
      apply filter_ext_in. intros t Ht. apply Hpq. congruence.
    + destruct Hin as [Heq|Hin]; [congruence|].
      rewrite (Hpq x Hne). destruct (q x); cbn [length];
        rewrite (IH Hnd' Hin); reflexivity.
Qed.

Lemma vocab_unk_key_reachable : reachable vocab_unk_key.
Proof.
  apply (reach_init (ArgCounter (counts vocab_unk_key)) 2 default_unk_label).
  - cbn. repeat constructor; cbn; intuition discriminate.
  - reflexivity.
Qed.

(** C2, as stated, fails: when [unk_label] is itself a key of [counts] it
    passes the membership test, so iteration yields it from [counts] and
    once more at the end. *)
Lemma iter_unk_label_at_most_once_fails :
  ~ (forall v items,
       reachable v ->
       run __iter__ v = (inr items, v) ->
       (count_occ string_dec items (unk_label v) <= 1)%nat).
Proof.
  intros H.
  specialize (H vocab_unk_key ["<UNK>"; "a"; "<UNK>"]%string
                vocab_unk_key_reachable eq_refl).
  vm_compute in H. lia.
Qed.

(** C2, amended. Iterating a vocabulary yields the keys of [counts] that
    pass the membership test, in the order of [counts], followed by
    [unk_label] once when [counts] is not empty; it yields nothing when
    [counts] is empty. [unk_label] occurs at most once in the output when it
    is not a key of [counts], and twice when it is. *)
Theorem iter_members_then_unk_label v :
  (forall t, run (__contains__ t) v = (inr (member v t), v))
  /\ run __iter__ v
     = (inr (filter (member v) (Counter.keys (counts v))
             ++ match counts v with [] => [] | _ :: _ => [unk_label v] end), v)
  /\ (counts v = Counter.empty -> run __iter__ v = (inr [], v))
  /\ (~ In (unk_label v) (Counter.keys (counts v)) ->
      forall items, run __iter__ v = (inr items, v) ->
      (count_occ string_dec items (unk_label v) <= 1)%nat)
  /\ (Counter.wf (counts v) ->
      In (unk_label v) (Counter.keys (counts v)) ->
      forall items, run __iter__ v = (inr items, v) ->
      count_occ string_dec items (unk_label v) = 2%nat).
Proof.
  split; [apply run_contains|]. split; [apply run_iter|]. split; [|split].
  - intros Hempty. rewrite run_iter. unfold iter_of. rewrite Hempty.
    reflexivity.
  - intros Hnin items Hrun. rewrite run_iter in Hrun. injection Hrun as <-.
    unfold iter_of. rewrite count_occ_app, count_occ_filter, member_unk_label.
    rewrite (proj1 (count_occ_not_In string_dec _ _) Hnin).
    destruct (counts v); cbn [count_occ]; [lia|].
    destruct (string_dec (unk_label v) (unk_label v)); lia.
  - intros Hwf Hin items Hrun. rewrite run_iter in Hrun. injection Hrun as <-.
    unfold iter_of. rewrite count_occ_app, count_occ_filter, member_unk_label.
    rewrite (proj1 (NoDup_count_occ' string_dec _) Hwf _ Hin).
    destruct (counts v) as [|e c]; [destruct Hin|]. cbn [count_occ].
    destruct (string_dec (unk_label v) (unk_label v)); [reflexivity | congruence].
Qed.

Lemma iter_members_then_unk_label_witness :
  (~ In (unk_label vocab) (Counter.keys (counts vocab))
   /\ (count_occ string_dec ["a"; "c"; "d"; "<UNK>"]%string (unk_label vocab)
       <= 1)%nat)
  /\ (Counter.wf (counts vocab_unk_key)
      /\ In (unk_label vocab_unk_key) (Counter.keys (counts vocab_unk_key))
      /\ count_occ string_dec ["<UNK>"; "a"; "<UNK>"]%string
           (unk_label vocab_unk_key) = 2%nat).
Proof.
  split.
  - assert (Hnin : ~ In (unk_label vocab) (Counter.keys (counts vocab))).
    { vm_compute. intros [H|[H|[H|[H|[H|[H|[]]]]]]]; discriminate H. }
    split; [exact Hnin|].
    destruct (iter_members_then_unk_label vocab) as (_ & _ & _ & H & _).
    apply (H Hnin). reflexivity.
  - assert (Hwf : Counter.wf (counts vocab_unk_key)).
    { cbn. repeat constructor; cbn; intuition discriminate. }
    assert (Hin : In (unk_label vocab_unk_key)
                     (Counter.keys (counts vocab_unk_key))).
    { left. reflexivity. }
    split; [exact Hwf|]. split; [exact Hin|].
    destruct (iter_members_then_unk_label vocab_unk_key) as (_ & _ & _ & _ & H).
    apply (H Hwf Hin). reflexivity.
Defined.

Lemma distinct_at_cutoff_wf v :
  Counter.wf (counts v) ->
  distinct_at_cutoff v
  = Z.of_nat (length (filter (fun t => stored_count (counts v) t >=? _cutoff v)
                             (Counter.keys (counts v)))).
Proof.
  intros Hwf. unfold distinct_at_cutoff.
  rewrite nodup_fixed_point; [reflexivity|].
  apply NoDup_filter, Hwf.
Qed.

(** C3, as stated, fails: a key of [counts] equal to [unk_label] and stored
    below the cutoff still passes the membership test, and is counted
    besides the label appended at the end. *)
Lemma len_distinct_at_cutoff_plus_one_fails :
  ~ (forall v,
       reachable v ->
       counts v <> Counter.empty ->
       run __len__ v = (inr (distinct_at_cutoff v + 1), v)).
Proof.
  intros H.
  specialize (H vocab_unk_key vocab_unk_key_reachable).
  assert (Hne : counts vocab_unk_key <> Counter.empty) by discriminate.
  specialize (H Hne). vm_compute in H. discriminate H.
Qed.

(** C3, amended. [len(vocab)] is 0 when [counts] is empty; otherwise it is
    the number of keys of [counts] that pass the membership test, plus one
    for the appended [unk_label]. That is the number of distinct tokens
    whose stored count is at least the cutoff, plus one, unless [unk_label]
    is a key of [counts] stored below the cutoff, when it is that number
    plus two. *)
Theorem len_members_plus_unk_label v :
  Counter.wf (counts v) ->
  (counts v = Counter.empty -> run __len__ v = (inr 0, v))
  /\ (counts v <> Counter.empty ->
      run __len__ v
      = (inr (Z.of_nat (length (filter (member v) (Counter.keys (counts v))))
              + 1), v))
  /\ (counts v <> Counter.empty ->
      ~ In (unk_label v) (Counter.keys (counts v))
      \/ _cutoff v <= stored_count (counts v) (unk_label v) ->
      run __len__ v = (inr (distinct_at_cutoff v + 1), v))
  /\ (In (unk_label v) (Counter.keys (counts v)) ->
      stored_count (counts v) (unk_label v) < _cutoff v ->
      run __len__ v = (inr (distinct_at_cutoff v + 2), v)).
Proof.
  intros Hwf.
  assert (Hlen : counts v <> Counter.empty ->
            run __len__ v
            = (inr (Z.of_nat (length (filter (member v)
                                        (Counter.keys (counts v)))) + 1), v)).
  { intros Hne. rewrite run_len. unfold iter_of.
    destruct (counts v) as [|e c]; [exfalso; apply Hne; reflexivity|].
    rewrite length_app. cbn [length]. do 2 f_equal. lia. }
  split; [|split; [exact Hlen | split]].
  - intros Hempty. rewrite run_len. unfold iter_of. rewrite Hempty.
    reflexivity.
  - intros Hne Hunk. rewrite (Hlen Hne), (distinct_at_cutoff_wf v Hwf).
    rewrite (filter_ext_in (member v)
               (fun t => stored_count (counts v) t >=? _cutoff v)
               (Counter.keys (counts v))); [reflexivity|].
    intros t Ht.
    destruct (string_dec t (unk_label v)) as [->|Hother].
    + rewrite member_unk_label. symmetry. apply Z.geb_le.
      destruct Hunk as [Hnin|Hge]; [contradiction | exact Hge].
    + apply member_other, Hother.
  - intros Hin Hlt.
    assert (Hne : counts v <> Counter.empty).
    { intros Hempty. rewrite Hempty in Hin. destruct Hin. }
    rewrite (Hlen Hne), (distinct_at_cutoff_wf v Hwf).
    rewrite (length_filter_one_more (member v)
               (fun t => stored_count (counts v) t >=? _cutoff v)
               (unk_label v)).
    + do 2 f_equal. lia.
    + apply member_unk_label.
    + destruct (Z.geb_spec (stored_count (counts v) (unk_label v)) (_cutoff v));
        [lia | reflexivity].
    + intros t Ht. apply member_other, Ht.
    + exact Hwf.
    + exact Hin.
Qed.

Lemma len_members_plus_unk_label_witness :
  Counter.wf (counts vocab)
  /\ counts vocab <> Counter.empty
  /\ run __len__ vocab = (inr (distinct_at_cutoff vocab + 1), vocab)
  /\ distinct_at_cutoff vocab = 3.
Proof.
  assert (Hwf : Counter.wf (counts vocab)).
  { cbn. repeat constructor; cbn; intuition discriminate. }
  assert (Hne : counts vocab <> Counter.empty) by discriminate.
  split; [exact Hwf|]. split; [exact Hne|]. split; [|reflexivity].
  destruct (len_members_plus_unk_label vocab Hwf) as (_ & _ & H & _).
  apply (H Hne). left.
  vm_compute. intros [H1|[H1|[H1|[H1|[H1|[H1|[]]]]]]]; discriminate H1.
Defined.

(** * Further properties of the module *)

(** ** Dictionaries as mappings *)

Lemma find_some_in c k n : Counter.find c k = Some n -> In (k, n) c.
Proof.
  induction c as [|[k' n'] c IH]; cbn; [discriminate|].
  destruct (String.eqb_spec k k') as [->|Hne].
  - intros [= ->]. now left.
  - intros H. right. exact (IH H).
Qed.

Lemma find_in_wf c k n : Counter.wf c -> In (k, n) c -> Counter.find c k = Some n.
Proof.
  unfold Counter.wf. induction c as [|[k' n'] c IH]; cbn; intros Hwf Hin.
  - destruct Hin.
  - inversion Hwf as [|? ? Hk Hwf']; subst.
    destruct Hin as [[= -> ->]|Hin].
    + rewrite String.eqb_refl. reflexivity.
    + destruct (String.eqb_spec k k') as [->|Hne].
      * exfalso. apply Hk. apply (in_map fst) in Hin. exact Hin.
      * exact (IH Hwf' Hin).
Qed.

Lemma find_some_key c k n : Counter.find c k = Some n -> In k (Counter.keys c).
Proof.
  intros H. destruct (in_dec string_dec k (Counter.keys c)) as [Hin|Hnin].
  - exact Hin.
  - apply find_none_iff in Hnin. congruence.
Qed.

Lemma in_keys_find c k : In k (Counter.keys c) -> exists n, Counter.find c k = Some n.
Proof.
  intros Hin. destruct (Counter.find c k) as [n|] eqn:E.
  - exists n. reflexivity.
  - apply find_none_iff in E. contradiction.
Qed.

(** What [find] gives, from the keys and the stored count. *)
Lemma find_by_stored_count c1 c2 t :
  (In t (Counter.keys c1) <-> In t (Counter.keys c2)) ->
  stored_count c1 t = stored_count c2 t ->
  Counter.find c1 t = Counter.find c2 t.
Proof.
  unfold stored_count. intros Hkeys Hcount.
  destruct (Counter.find c1 t) as [n1|] eqn:E1;
    destruct (Counter.find c2 t) as [n2|] eqn:E2.
  - congruence.
  - apply find_some_key, Hkeys in E1. apply find_none_iff in E2. contradiction.
  - apply find_some_key, Hkeys in E2. apply find_none_iff in E1. contradiction.
  - reflexivity.
Qed.

Lemma same_finds_same_keys c1 c2 :
  (forall t, Counter.find c1 t = Counter.find c2 t) ->
  forall t, In t (Counter.keys c1) <-> In t (Counter.keys c2).
Proof.
  intros Hfind t. split; intros Hin; apply in_keys_find in Hin as [n Hn].
  - rewrite Hfind in Hn. exact (find_some_key _ _ _ Hn).
  - rewrite <- Hfind in Hn. exact (find_some_key _ _ _ Hn).
Qed.

Lemma run_counter_eq c other :
  runState (Counter.__eq__ other) c = (evalState (Counter.__eq__ other) c, c).
Proof. reflexivity. Qed.

(** The comparison of two dictionaries holds exactly when they are the same
    mapping. *)
Lemma counter_eq_iff c1 c2 :
  Counter.wf c1 -> Counter.wf c2 ->
  evalState (Counter.__eq__ c2) c1 = true
  <-> (forall t, Counter.find c1 t = Counter.find c2 t).
Proof.
  intros Hwf1 Hwf2. unfold evalState, Counter.__eq__. cbn.
  rewrite andb_true_iff, Nat.eqb_eq, forallb_forall. split.
  - intros [Hlen Hall].
    assert (Hsub : forall k n, In (k, n) c1 -> Counter.find c2 k = Some n).
    { intros k n Hin. specialize (Hall _ Hin). cbn in Hall.
      destruct (Counter.find c2 k) as [n'|]; [|discriminate].
      apply Z.eqb_eq in Hall. congruence. }
    assert (Hincl : incl (Counter.keys c1) (Counter.keys c2)).
    { intros k Hk. apply in_keys_find in Hk as [n Hn].
      apply find_some_in, Hsub in Hn. exact (find_some_key _ _ _ Hn). }
    assert (Hincl' : incl (Counter.keys c2) (Counter.keys c1)).
    { apply NoDup_length_incl; [exact Hwf1 | | exact Hincl].
      unfold Counter.keys. rewrite !length_map, Hlen. reflexivity. }
    intros t. destruct (Counter.find c1 t) as [n|] eqn:E1.
    + symmetry. apply Hsub, find_some_in, E1.
    + symmetry. apply find_none_iff. intros Hin. apply Hincl' in Hin.
      apply find_none_iff in E1. contradiction.
  - intros Hfind. split.
    + pose proof (same_finds_same_keys c1 c2 Hfind) as Hkeys.
      assert (H12 : (length (Counter.keys c1) <= length (Counter.keys c2))%nat).
      { apply NoDup_incl_length; [exact Hwf1|]. intros t. apply Hkeys. }
      assert (H21 : (length (Counter.keys c2) <= length (Counter.keys c1))%nat).
      { apply NoDup_incl_length; [exact Hwf2|]. intros t. apply Hkeys. }
      unfold Counter.keys in H12, H21. rewrite !length_map in H12, H21. lia.
    + intros [k n] Hin. cbn.
      rewrite <- Hfind, (find_in_wf c1 k n Hwf1 Hin). apply Z.eqb_refl.
Qed.

Lemma run_eq v other :
  run (__eq__ other) v
  = (inr ((unk_label v =? unk_label other)%string
          && (_cutoff v =? _cutoff other)
          && evalState (Counter.__eq__ (counts other)) (counts v)), v).
Proof.
  unfold __eq__. rewrite run_bind, run_get.
  destruct (unk_label v =? unk_label other)%string; cbn [negb andb];
    [|reflexivity].
  rewrite (run_bind_pure _ _ _ _ (run_cutoff v)).
  destruct (_cutoff v =? _cutoff other); cbn [negb andb]; [|reflexivity].
  rewrite run_self_counts, run_counter_eq. cbn [fst snd].
  rewrite vocabulary_eta. reflexivity.
Qed.

Lemma length_filter_perm {A} (p : A -> bool) (l l' : list A) :
  Permutation l l' -> length (filter p l) = length (filter p l').
Proof.
  induction 1 as [|x l l' _ IH|x y l|l l' l'' _ IH1 _ IH2]; cbn [filter].
  - reflexivity.
  - destruct (p x); cbn [length]; rewrite IH; reflexivity.
  - destruct (p x), (p y); reflexivity.
  - rewrite IH1. exact IH2.
Qed.

Lemma same_vocabulary_member v w :
  same_vocabulary v w -> forall t, member v t = member w t.
Proof.
  intros (Hl & Hc & Hf) t. unfold member, count_of, stored_count.
  rewrite Hl, Hc, Hf. reflexivity.
Qed.

Lemma same_vocabulary_count_of v w :
  same_vocabulary v w -> forall t, count_of v t = count_of w t.
Proof.
  intros (Hl & Hc & Hf) t. unfold count_of, stored_count.
  rewrite Hl, Hc, Hf. reflexivity.
Qed.

Lemma same_vocabulary_iter_length v w :
  Counter.wf (counts v) -> Counter.wf (counts w) ->
  same_vocabulary v w -> length (iter_of v) = length (iter_of w).
Proof.
  intros Hwfv Hwfw Hsame.
  pose proof (same_vocabulary_member v w Hsame) as Hmem.
  destruct Hsame as (Hl & Hc & Hf).
  assert (Hperm : Permutation (Counter.keys (counts v)) (Counter.keys (counts w))).
  { apply NoDup_Permutation; [exact Hwfv | exact Hwfw |].
    apply same_finds_same_keys, Hf. }
  unfold iter_of. rewrite !length_app. f_equal.
  - rewrite (length_filter_perm _ _ _ Hperm).
    f_equal. apply filter_ext. exact Hmem.
  - apply Permutation_length in Hperm. unfold Counter.keys in Hperm.
    rewrite !length_map in Hperm.
    destruct (counts v), (counts w); cbn in Hperm; try discriminate;
      reflexivity.
Qed.

Lemma eq_true_iff v w :
  Counter.wf (counts v) -> Counter.wf (counts w) ->
  run (__eq__ w) v = (inr true, v) <-> same_vocabulary v w.
Proof.
  intros Hwfv Hwfw. rewrite run_eq. unfold same_vocabulary.
  rewrite <- (counter_eq_iff _ _ Hwfv Hwfw), <- String.eqb_eq, <- Z.eqb_eq.
  destruct (unk_label v =? unk_label w)%string, (_cutoff v =? _cutoff w),
    (evalState (Counter.__eq__ (counts w)) (counts v)); cbn;
    intuition congruence.
Qed.

(** ** Equality of vocabularies *)

(** X1. For vocabularies whose counters are dictionaries, [v == w] returns
    [True] exactly when the two have the same label, the same cutoff and the
    same mapping from tokens to stored counts; the comparison never raises
    and leaves [v] as it was. *)
Theorem eq_iff_same_label_cutoff_mapping v w :
  Counter.wf (counts v) -> Counter.wf (counts w) ->
  (exists b, run (__eq__ w) v = (inr b, v))
  /\ (run (__eq__ w) v = (inr true, v)
      <-> unk_label v = unk_label w
          /\ _cutoff v = _cutoff w
          /\ forall t, Counter.find (counts v) t = Counter.find (counts w) t).
Proof.
  intros Hwfv Hwfw. split.
  - eexists. apply run_eq.
  - apply (eq_true_iff v w Hwfv Hwfw).
Qed.

Lemma vocab_wf : Counter.wf (counts vocab).
Proof. cbn. repeat constructor; cbn; intuition discriminate. Qed.

Lemma vocab_reordered_wf : Counter.wf (counts vocab_reordered).
Proof. cbn. repeat constructor; cbn; intuition discriminate. Qed.

Lemma eq_iff_same_label_cutoff_mapping_witness :
  Counter.wf (counts vocab)
  /\ run (__eq__ vocab) vocab = (inr true, vocab).
Proof.
  split; [exact vocab_wf|].
  destruct (eq_iff_same_label_cutoff_mapping vocab vocab vocab_wf vocab_wf)
    as [_ [_ H]].
  apply H. repeat split.
Defined.

(** X2. On vocabularies whose counters are dictionaries, [==] is reflexive,
    symmetric and transitive. *)
Theorem eq_is_equivalence u v w :
  Counter.wf (counts u) -> Counter.wf (counts v) -> Counter.wf (counts w) ->
  run (__eq__ u) u = (inr true, u)
  /\ (run (__eq__ v) u = (inr true, u) -> run (__eq__ u) v = (inr true, v))
  /\ (run (__eq__ v) u = (inr true, u) -> run (__eq__ w) v = (inr true, v) ->
      run (__eq__ w) u = (inr true, u)).
Proof.
  intros Hu Hv Hw. split; [|split].
  - apply (eq_true_iff u u Hu Hu). repeat split.
  - intros H. apply (eq_true_iff u v Hu Hv) in H as (Hl & Hc & Hf).
    apply (eq_true_iff v u Hv Hu).
    split; [congruence | split; [congruence|]].
    intros t. symmetry. apply Hf.
  - intros H1 H2.
    apply (eq_true_iff u v Hu Hv) in H1 as (Hl1 & Hc1 & Hf1).
    apply (eq_true_iff v w Hv Hw) in H2 as (Hl2 & Hc2 & Hf2).
    apply (eq_true_iff u w Hu Hw).
    split; [congruence | split; [congruence|]].
    intros t. rewrite Hf1. apply Hf2.
Qed.

Lemma eq_is_equivalence_witness :
  Counter.wf (counts vocab)
  /\ run (__eq__ vocab) vocab = (inr true, vocab).
Proof.
  split; [exact vocab_wf|].
  exact (proj1 (eq_is_equivalence vocab vocab vocab vocab_wf vocab_wf vocab_wf)).
Defined.

(** X3. Two vocabularies that compare equal answer alike: every count
    lookup, every membership test and every lookup of a word gives the same
    result on both, and they have the same size. *)
Theorem eq_vocabularies_answer_alike v w :
  Counter.wf (counts v) -> Counter.wf (counts w) ->
  run (__eq__ w) v = (inr true, v) ->
  (forall item,
      fst (run (__getitem__ item) v) = fst (run (__getitem__ item) w)
      /\ fst (run (__contains__ item) v) = fst (run (__contains__ item) w)
      /\ fst (run (lookup (PyStr item)) v) = fst (run (lookup (PyStr item)) w))
  /\ fst (run __len__ v) = fst (run __len__ w).
Proof.
  intros Hwfv Hwfw Heq. apply (eq_true_iff v w Hwfv Hwfw) in Heq.
  split.
  - intros item. rewrite !run_getitem, !run_contains, !run_lookup_str.
    cbn [fst].
    rewrite (same_vocabulary_count_of v w Heq),
      (same_vocabulary_member v w Heq).
    destruct Heq as (-> & _). repeat split; reflexivity.
  - rewrite !run_len. cbn [fst].
    rewrite (same_vocabulary_iter_length v w Hwfv Hwfw Heq). reflexivity.
Qed.

Lemma eq_vocabularies_answer_alike_witness :
  Counter.wf (counts vocab_reordered)
  /\ run (__eq__ vocab_reordered) vocab = (inr true, vocab)
  /\ fst (run __len__ vocab) = fst (run __len__ vocab_reordered).
Proof.
  assert (Heq : run (__eq__ vocab_reordered) vocab = (inr true, vocab))
    by reflexivity.
  split; [exact vocab_reordered_wf|]. split; [exact Heq|].
  exact (proj2 (eq_vocabularies_answer_alike vocab vocab_reordered
                  vocab_wf vocab_reordered_wf Heq)).
Defined.

Lemma run_str v :
  run __str__ v
  = (inr ("<Vocabulary with cutoff=" ++ str_int (_cutoff v)
          ++ " unk_label='" ++ unk_label v
          ++ "' and " ++ str_int (Z.of_nat (length (iter_of v)))
          ++ " items>")%string, v).
Proof.
  unfold __str__.
  rewrite (run_bind_pure _ _ _ _ (run_cutoff v)).
  rewrite run_bind, run_get.
  rewrite (run_bind_pure _ _ _ _ (run_len v)).
  apply run_ret.
Qed.

(** X4. Two vocabularies that compare equal have the same string
    representation, whatever the order of their counters; [str] leaves the
    vocabulary as it was. *)
Theorem eq_vocabularies_same_str v w :
  Counter.wf (counts v) -> Counter.wf (counts w) ->
  run (__eq__ w) v = (inr true, v) ->
  exists s, run __str__ v = (inr s, v) /\ run __str__ w = (inr s, w).
Proof.
  intros Hwfv Hwfw Heq. apply (eq_true_iff v w Hwfv Hwfw) in Heq.
  eexists. split; [apply run_str|].
  rewrite run_str, (same_vocabulary_iter_length v w Hwfv Hwfw Heq).
  destruct Heq as (-> & -> & _). reflexivity.
Qed.

Lemma eq_vocabularies_same_str_witness :
  Counter.wf (counts vocab_reordered)
  /\ run (__eq__ vocab_reordered) vocab = (inr true, vocab)
  /\ exists s, run __str__ vocab = (inr s, vocab)
               /\ run __str__ vocab_reordered = (inr s, vocab_reordered).
Proof.
  assert (Heq : run (__eq__ vocab_reordered) vocab = (inr true, vocab))
    by reflexivity.
  split; [exact vocab_reordered_wf|]. split; [exact Heq|].
  exact (eq_vocabularies_same_str vocab vocab_reordered
           vocab_wf vocab_reordered_wf Heq).
Defined.

Lemma perm_wf c c' : Permutation c c' -> Counter.wf c -> Counter.wf c'.
Proof.
  unfold Counter.wf, Counter.keys. intros Hperm.
  apply Permutation_NoDup, Permutation_map, Hperm.
Qed.

Lemma perm_find c c' t :
  Counter.wf c -> Permutation c c' -> Counter.find c t = Counter.find c' t.
Proof.
  intros Hwf Hperm. pose proof (perm_wf c c' Hperm Hwf) as Hwf'.
  destruct (Counter.find c t) as [n|] eqn:E.
  - symmetry. apply find_in_wf; [exact Hwf'|].
    apply (Permutation_in _ Hperm), find_some_in, E.
  - symmetry. apply find_none_iff. intros Hin.
    apply find_none_iff in E. apply E.
    apply (Permutation_in _ (Permutation_sym (Permutation_map fst Hperm))).
    exact Hin.
Qed.

(** X5. Equality does not depend on the order in which the tokens entered
    the counter: a vocabulary compares equal to one with the same label and
    cutoff whose counter holds the same entries in another order. *)
Theorem eq_ignores_insertion_order v c' :
  Counter.wf (counts v) ->
  Permutation (counts v) c' ->
  run (__eq__ (mkVocabulary c' (unk_label v) (_cutoff v))) v = (inr true, v).
Proof.
  intros Hwf Hperm.
  apply eq_true_iff; [exact Hwf | exact (perm_wf _ _ Hperm Hwf) |].
  repeat split. intros t. apply (perm_find _ _ t Hwf Hperm).
Qed.

Lemma eq_ignores_insertion_order_witness :
  Counter.wf (counts vocab_unk_key)
  /\ Permutation (counts vocab_unk_key) [("a", 3); ("<UNK>", 1)]%string
  /\ run (__eq__ (mkVocabulary [("a", 3); ("<UNK>", 1)]%string "<UNK>" 2))
         vocab_unk_key
     = (inr true, vocab_unk_key).
Proof.
  assert (Hwf : Counter.wf (counts vocab_unk_key)).
  { cbn. repeat constructor; cbn; intuition discriminate. }
  assert (Hperm : Permutation (counts vocab_unk_key)
                    [("a", 3); ("<UNK>", 1)]%string) by apply perm_swap.
  split; [exact Hwf|]. split; [exact Hperm|].
  exact (eq_ignores_insertion_order vocab_unk_key _ Hwf Hperm).
Defined.

(** ** Counting tokens *)

Lemma tally_snoc tokens t c :
  fold_left bump (tokens ++ [t]) c = bump (fold_left bump tokens c) t.
Proof. rewrite fold_left_app. reflexivity. Qed.

(** The keys of a counter filled from a token list are the distinct tokens
    in the order of their first occurrence. *)
Lemma keys_tally_first_seen tokens :
  Counter.keys (fold_left bump tokens Counter.empty)
  = rev (nodup string_dec (rev tokens)).
Proof.
  induction tokens as [|t tokens IH] using rev_ind.
  - reflexivity.
  - rewrite tally_snoc, rev_app_distr. cbn [rev app nodup]. unfold bump.
    destruct (in_dec string_dec t (rev tokens)) as [Hin|Hnin].
    + rewrite keys_store_in; [exact IH|].
      apply in_keys_tally. right. apply in_rev. exact Hin.
    + rewrite keys_store_new.
      * cbn [rev]. f_equal. exact IH.
      * intros Hin. apply in_keys_tally in Hin as [[]|Hin].
        apply Hnin. apply in_rev in Hin. exact Hin.
Qed.

Lemma init_tokens_counts tokens c l v :
  __init__ (ArgIterable tokens) c l = inr v ->
  counts v = fold_left bump tokens Counter.empty.
Proof.
  unfold __init__. destruct (c <? 1); [discriminate|]. intros [= <-].
  cbn [counts]. unfold execState. rewrite run_counter_update. reflexivity.
Qed.

(** X6. A vocabulary constructed from a sequence of tokens stores, for each
    token, the number of its occurrences in the sequence, and holds the
    distinct tokens as keys in the order of their first occurrence; no count
    stored under a key is below 1. *)
Theorem init_from_tokens_tallies tokens c l v :
  __init__ (ArgIterable tokens) c l = inr v ->
  (forall t, stored_count (counts v) t
             = Z.of_nat (count_occ string_dec tokens t))
  /\ Counter.keys (counts v) = rev (nodup string_dec (rev tokens))
  /\ (forall t n, In (t, n) (counts v) -> 1 <= n).
Proof.
  intros Hinit. rewrite (init_tokens_counts _ _ _ _ Hinit).
  assert (Hcount : forall t,
            stored_count (fold_left bump tokens Counter.empty) t
            = Z.of_nat (count_occ string_dec tokens t)).
  { intros t. rewrite stored_count_tally. reflexivity. }
  split; [exact Hcount|]. split; [apply keys_tally_first_seen|].
  intros t n Hin.
  assert (Hwf : Counter.wf (fold_left bump tokens Counter.empty)).
  { apply wf_tally. constructor. }
  pose proof (find_in_wf _ _ _ Hwf Hin) as Hfind.
  assert (Hkey : In t tokens).
  { apply find_some_key, in_keys_tally in Hfind as [[]|H]. exact H. }
  specialize (Hcount t). unfold stored_count in Hcount.
  rewrite Hfind in Hcount.
  apply (count_occ_In string_dec) in Hkey. lia.
Qed.

Lemma init_from_tokens_tallies_witness :
  __init__ (ArgIterable words) 2 default_unk_label = inr vocab
  /\ Counter.keys (counts vocab) = ["a"; "c"; "-"; "d"; "b"; "r"]%string
  /\ stored_count (counts vocab) "a" = 3.
Proof.
  assert (Hinit : __init__ (ArgIterable words) 2 default_unk_label = inr vocab)
    by reflexivity.
  destruct (init_from_tokens_tallies _ _ _ _ Hinit) as (Hcount & Hkeys & _).
  split; [exact Hinit|]. split.
  - rewrite Hkeys. reflexivity.
  - rewrite Hcount. reflexivity.
Defined.

(** X7. Constructing a vocabulary from a sequence of tokens gives the same
    object as constructing it with no counts and then updating it with the
    sequence. *)
Theorem init_from_tokens_is_update tokens c l v :
  __init__ (ArgIterable tokens) c l = inr v ->
  exists v0, __init__ ArgNone c l = inr v0
             /\ run (update tokens) v0 = (inr tt, v).
Proof.
  intros Hinit. pose proof (init_tokens_counts _ _ _ _ Hinit) as Hcounts.
  unfold __init__ in *. destruct (c <? 1); [discriminate|].
  eexists. split; [reflexivity|].
  rewrite run_update. cbn [counts unk_label _cutoff].
  injection Hinit as <-. cbn [counts] in Hcounts. rewrite <- Hcounts.
  reflexivity.
Qed.

Lemma init_from_tokens_is_update_witness :
  __init__ (ArgIterable words) 2 default_unk_label = inr vocab
  /\ exists v0, __init__ ArgNone 2 default_unk_label = inr v0
                /\ run (update words) v0 = (inr tt, vocab).
Proof.
  assert (Hinit : __init__ (ArgIterable words) 2 default_unk_label = inr vocab)
    by reflexivity.
  split; [exact Hinit|].
  exact (init_from_tokens_is_update _ _ _ _ Hinit).
Defined.

(** ** Updates *)

Lemma keys_tally_prefix tokens : forall c,
  exists new,
    Counter.keys (fold_left bump tokens c) = Counter.keys c ++ new.
Proof.
  induction tokens as [|t tokens IH]; intros c; cbn [fold_left].
  - exists []. rewrite app_nil_r. reflexivity.
  - destruct (IH (bump c t)) as [new Hnew]. rewrite Hnew. unfold bump.
    destruct (in_dec string_dec t (Counter.keys c)) as [Hin|Hnin].
    + rewrite keys_store_in by exact Hin. exists new. reflexivity.
    + rewrite keys_store_new by exact Hnin. exists (t :: new).
      rewrite <- app_assoc. reflexivity.
Qed.

Lemma length_filter_implies {A} (p q : A -> bool) (l : list A) :
  (forall x, p x = true -> q x = true) ->
  (length (filter p l) <= length (filter q l))%nat.
Proof.
  intros Hpq. induction l as [|x l IH]; cbn [filter]; [lia|].
  destruct (p x) eqn:Hp.
  - rewrite (Hpq x Hp). cbn [length]. lia.
  - destruct (q x); cbn [length]; lia.
Qed.

(** X8. Updating with one sequence and then with another is updating once
    with the two in a row, and updating with an empty sequence changes
    nothing. *)
Theorem update_twice_is_update_once v tokens1 tokens2 :
  run (update []) v = (inr tt, v)
  /\ exists v1,
       run (update tokens1) v = (inr tt, v1)
       /\ run (update tokens2) v1 = run (update (tokens1 ++ tokens2)) v.
Proof.
  split.
  - rewrite run_update. cbn [fold_left]. rewrite vocabulary_eta. reflexivity.
  - eexists. split; [apply run_update|].
    rewrite !run_update. cbn [counts unk_label _cutoff].
    rewrite fold_left_app. reflexivity.
Qed.

(** X9. An update only adds: no stored count goes down, the keys already in
    [counts] keep their places in front of the new ones, every member stays
    a member, and the size does not shrink. *)
Theorem update_only_adds v tokens v' :
  run (update tokens) v = (inr tt, v') ->
  (forall t, stored_count (counts v) t <= stored_count (counts v') t)
  /\ (exists new,
        Counter.keys (counts v') = Counter.keys (counts v) ++ new)
  /\ (forall t, run (__contains__ t) v = (inr true, v) ->
                run (__contains__ t) v' = (inr true, v'))
  /\ (exists n n', run __len__ v = (inr n, v)
                   /\ run __len__ v' = (inr n', v') /\ n <= n').
Proof.
  rewrite run_update. intros [= <-]. cbn [counts unk_label _cutoff].
  set (v' := mkVocabulary (fold_left bump tokens (counts v))
               (unk_label v) (_cutoff v)).
  assert (Hcount : forall t,
            stored_count (counts v) t <= stored_count (counts v') t).
  { intros t. cbn [counts v']. rewrite stored_count_tally. lia. }
  assert (Hmem : forall t, member v t = true -> member v' t = true).
  { intros t. unfold member, count_of. cbn [unk_label _cutoff v'].
    destruct (t =? unk_label v)%string; [auto|].
    rewrite !Z.geb_le. specialize (Hcount t). lia. }
  destruct (keys_tally_prefix tokens (counts v)) as [new Hnew].
  split; [exact Hcount|]. split; [exists new; exact Hnew|]. split.
  - intros t. rewrite !run_contains. intros [= Ht].
    rewrite (Hmem t Ht). reflexivity.
  - do 2 eexists. split; [apply run_len|]. split; [apply run_len|].
    apply inj_le. unfold iter_of. rewrite !length_app.
    cbn [counts v']. rewrite Hnew, filter_app, length_app.
    pose proof (length_filter_implies (member v) (member v')
                  (Counter.keys (counts v)) Hmem) as Hle.
    assert (Htail :
      (length (match counts v with [] => [] | _ :: _ => [unk_label v] end)
       <= length (match fold_left bump tokens (counts v) with
                  | [] => []
                  | _ :: _ => [unk_label v']
                  end))%nat).
    { destruct (counts v) as [|e c] eqn:Ec; cbn [length]; [lia|].
      destruct (fold_left bump tokens (e :: c)) as [|e' c'] eqn:Ec';
        cbn [length]; [|lia].
      cbn in Hnew. discriminate Hnew. }
    lia.
Qed.

Lemma update_only_adds_witness :
  exists v',
    run (update ["b"; "b"; "x"]%string) vocab = (inr tt, v')
    /\ Counter.keys (counts v') = ["a"; "c"; "-"; "d"; "b"; "r"; "x"]%string
    /\ exists n n', run __len__ vocab = (inr n, vocab)
                    /\ run __len__ v' = (inr n', v') /\ n <= n'.
Proof.
  eexists. split; [reflexivity|]. split; [reflexivity|].
  refine (proj2 (proj2 (proj2 (update_only_adds vocab ["b"; "b"; "x"]%string _ _)))).
  reflexivity.
Defined.

(** X10. The order of the tokens within an update does not matter to the
    vocabulary as a value: updating with a rearrangement of the same tokens
    gives a vocabulary that compares equal. *)
Theorem update_order_irrelevant v tokens tokens' v1 v2 :
  Counter.wf (counts v) ->
  Permutation tokens tokens' ->
  run (update tokens) v = (inr tt, v1) ->
  run (update tokens') v = (inr tt, v2) ->
  run (__eq__ v2) v1 = (inr true, v1).
Proof.
  intros Hwf Hperm. rewrite !run_update. intros [= <-] [= <-].
  apply eq_true_iff; cbn [counts]; try (apply wf_tally; exact Hwf).
  split; [reflexivity|]. split; [reflexivity|]. cbn [counts].
  intros t. apply find_by_stored_count.
  - rewrite !in_keys_tally. split; intros [H|H]; auto; right.
    + exact (Permutation_in _ Hperm H).
    + exact (Permutation_in _ (Permutation_sym Hperm) H).
  - rewrite !stored_count_tally.
    rewrite (proj1 (Permutation_count_occ string_dec tokens tokens') Hperm t).
    reflexivity.
Qed.

Lemma update_order_irrelevant_witness :
  exists v1 v2,
    Counter.wf (counts vocab)
    /\ Permutation ["x"; "b"]%string ["b"; "x"]%string
    /\ run (update ["x"; "b"]%string) vocab = (inr tt, v1)
    /\ run (update ["b"; "x"]%string) vocab = (inr tt, v2)
    /\ run (__eq__ v2) v1 = (inr true, v1).
Proof.
  assert (Hperm : Permutation ["x"; "b"]%string ["b"; "x"]%string)
    by apply perm_swap.
  do 2 eexists. split; [exact vocab_wf|]. split; [exact Hperm|].
  split; [reflexivity|]. split; [reflexivity|].
  exact (update_order_irrelevant vocab _ _ _ _ vocab_wf Hperm eq_refl eq_refl).
Defined.

(** ** The cutoff *)

(** X11. A vocabulary built on the counts of another with a cutoff that is
    not higher keeps the counts and keeps every member of the first other
    than its label a member, whatever the new label; when the label is kept
    too, every member of the first stays a member and the size does not
    shrink. *)
Theorem lower_cutoff_keeps_members v c' l' v' :
  c' <= _cutoff v ->
  __init__ (ArgCounter (counts v)) c' l' = inr v' ->
  counts v' = counts v
  /\ (forall t, t <> unk_label v ->
                run (__contains__ t) v = (inr true, v) ->
                run (__contains__ t) v' = (inr true, v'))
  /\ (l' = unk_label v ->
      (forall t, run (__contains__ t) v = (inr true, v) ->
                 run (__contains__ t) v' = (inr true, v'))
      /\ (exists n n', run __len__ v = (inr n, v)
                       /\ run __len__ v' = (inr n', v') /\ n <= n')).
Proof.
  intros Hle Hinit. unfold __init__ in Hinit.
  destruct (c' <? 1); [discriminate|]. injection Hinit as <-.
  split; [reflexivity|]. split.
  - intros t Hne. rewrite !run_contains. intros [= Ht].
    unfold member, count_of in *. cbn [counts unk_label _cutoff].
    apply String.eqb_neq in Hne. rewrite Hne in Ht.
    apply Z.geb_le in Ht.
    destruct (t =? l')%string.
    + replace (c' >=? c') with true; [reflexivity|].
      symmetry. apply Z.geb_le. lia.
    + replace (stored_count (counts v) t >=? c') with true; [reflexivity|].
      symmetry. apply Z.geb_le. lia.
  - intros ->.
    set (v' := mkVocabulary (counts v) (unk_label v) c').
    assert (Hmem : forall t, member v t = true -> member v' t = true).
    { intros t. unfold member, count_of. cbn [counts unk_label _cutoff v'].
      destruct (t =? unk_label v)%string; rewrite !Z.geb_le; lia. }
    split.
    + intros t. rewrite !run_contains. intros [= Ht].
      rewrite (Hmem t Ht). reflexivity.
    + do 2 eexists. split; [apply run_len|]. split; [apply run_len|].
      apply inj_le. unfold iter_of. rewrite !length_app. cbn [counts v'].
      pose proof (length_filter_implies (member v) (member v')
                    (Counter.keys (counts v)) Hmem) as Hlen.
      destruct (counts v); cbn [length] in *; lia.
Qed.

Lemma lower_cutoff_keeps_members_witness :
  exists v',
    1 <= _cutoff vocab
    /\ __init__ (ArgCounter (counts vocab)) 1 (unk_label vocab) = inr v'
    /\ run (__contains__ "b") v' = (inr true, v')
    /\ run (__contains__ "a") v' = (inr true, v')
    /\ exists n n', run __len__ vocab = (inr n, vocab)
                    /\ run __len__ v' = (inr n', v') /\ n <= n'.
Proof.
  assert (Hle : 1 <= _cutoff vocab) by (vm_compute; discriminate).
  eexists. split; [exact Hle|]. split; [reflexivity|]. split; [reflexivity|].
  destruct (lower_cutoff_keeps_members vocab 1 (unk_label vocab) _ Hle eq_refl)
    as (_ & Hother & Hsame).
  split.
  - apply (Hother "a"%string); [vm_compute; discriminate | reflexivity].
  - exact (proj2 (Hsame eq_refl)).
Defined.

(** ** Iteration and membership *)

(** X12. In a reachable vocabulary whose counts are not empty, iteration
    yields exactly the members: a token is produced by iterating the
    vocabulary if and only if it passes the membership test. *)
Theorem iter_yields_exactly_members v :
  reachable v ->
  counts v <> Counter.empty ->
  exists items,
    run __iter__ v = (inr items, v)
    /\ forall t, In t items <-> run (__contains__ t) v = (inr true, v).
Proof.
  intros Hreach Hne. apply reachable_cutoff in Hreach.
  eexists. split; [apply run_iter|].
  intros t. rewrite run_contains. unfold iter_of.
  rewrite in_app_iff, filter_In. split.
  - intros [[_ Hmem]|Hlast].
    + rewrite Hmem. reflexivity.
    + destruct (counts v); [destruct Hlast|].
      destruct Hlast as [<-|[]]. rewrite member_unk_label. reflexivity.
  - intros [= Hmem].
    destruct (string_dec t (unk_label v)) as [->|Hother].
    + right. destruct (counts v); [exfalso; apply Hne; reflexivity|].
      left. reflexivity.
    + left. split; [|exact Hmem].
      rewrite (member_other v t Hother) in Hmem. apply Z.geb_le in Hmem.
      destruct (in_dec string_dec t (Counter.keys (counts v))) as [Hin|Hnin];
        [exact Hin|].
      apply find_none_iff in Hnin. unfold stored_count in Hmem.
      rewrite Hnin in Hmem. lia.
Qed.

Lemma vocab_reachable : reachable vocab.
Proof.
  apply (reach_init (ArgIterable words) 2 default_unk_label);
    [exact I | reflexivity].
Qed.

Lemma iter_yields_exactly_members_witness :
  reachable vocab
  /\ counts vocab <> Counter.empty
  /\ exists items,
       run __iter__ vocab = (inr items, vocab)
       /\ forall t, In t items <-> run (__contains__ t) vocab = (inr true, vocab).
Proof.
  assert (Hne : counts vocab <> Counter.empty) by discriminate.
  split; [exact vocab_reachable|]. split; [exact Hne|].
  exact (iter_yields_exactly_members vocab vocab_reachable Hne).
Defined.

(** X13. When [unk_label] is not a key of [counts], iterating the vocabulary
    yields no token twice. *)
Theorem iter_has_no_duplicates v items :
  Counter.wf (counts v) ->
  ~ In (unk_label v) (Counter.keys (counts v)) ->
  run __iter__ v = (inr items, v) ->
  NoDup items.
Proof.
  intros Hwf Hnin. rewrite run_iter. intros [= <-]. unfold iter_of.
  apply NoDup_app.
  - apply NoDup_filter, Hwf.
  - destruct (counts v); repeat constructor. intros [].
  - intros t Ht Hlast. apply filter_In in Ht as [Ht _].
    destruct (counts v) as [|e c] eqn:Ec; [destruct Hlast|].
    destruct Hlast as [<-|[]]. contradiction.
Qed.

Lemma iter_has_no_duplicates_witness :
  Counter.wf (counts vocab)
  /\ ~ In (unk_label vocab) (Counter.keys (counts vocab))
  /\ NoDup ["a"; "c"; "d"; "<UNK>"]%string.
Proof.
  assert (Hnin : ~ In (unk_label vocab) (Counter.keys (counts vocab))).
  { vm_compute. intros [H|[H|[H|[H|[H|[H|[]]]]]]]; discriminate H. }
  split; [exact vocab_wf|]. split; [exact Hnin|].
  exact (iter_has_no_duplicates vocab _ vocab_wf Hnin eq_refl).
Defined.

(** ** Size *)

(** X14. For a vocabulary constructed from a non-empty sequence of tokens
    in which the label does not occur, [len] is the number of distinct
    tokens that occur at least [unk_cutoff] times, plus one. *)
Theorem len_from_tokens tokens c l v :
  tokens <> [] ->
  ~ In l tokens ->
  __init__ (ArgIterable tokens) c l = inr v ->
  run __len__ v
  = (inr (Z.of_nat (length (filter
                              (fun t => Z.of_nat (count_occ string_dec tokens t)
                                        >=? c)
                              (nodup string_dec tokens))) + 1), v).
Proof.
  intros Hne Hnin Hinit.
  assert (Hcount : forall t, stored_count (counts v) t
                             = Z.of_nat (count_occ string_dec tokens t)).
  { intros t. rewrite (init_tokens_counts _ _ _ _ Hinit), stored_count_tally.
    reflexivity. }
  assert (Hkeys : Counter.keys (counts v) = rev (nodup string_dec (rev tokens))).
  { rewrite (init_tokens_counts _ _ _ _ Hinit). apply keys_tally_first_seen. }
  destruct (init_inv _ _ _ _ Hinit) as (Hc & Hl & _).
  rewrite run_len. unfold iter_of. rewrite length_app, Hkeys.
  assert (Hperm : Permutation (rev (nodup string_dec (rev tokens)))
                              (nodup string_dec tokens)).
  { apply NoDup_Permutation.
    - apply NoDup_rev, NoDup_nodup.
    - apply NoDup_nodup.
    - intros t. rewrite <- in_rev, !nodup_In, <- in_rev. reflexivity. }
  rewrite (filter_ext_in (member v)
             (fun t => Z.of_nat (count_occ string_dec tokens t) >=? c)).
  - rewrite (length_filter_perm _ _ _ Hperm).
    assert (Hcounts : counts v <> []).
    { intros Hempty. destruct tokens as [|t tokens]; [congruence|].
      assert (Hin : In t (Counter.keys (counts v))).
      { rewrite Hkeys, <- in_rev, nodup_In, <- in_rev. now left. }
      rewrite Hempty in Hin. destruct Hin. }
    destruct (counts v); [congruence|]. cbn [length].
    rewrite Nat2Z.inj_add. reflexivity.
  - intros t Ht. rewrite <- in_rev, nodup_In, <- in_rev in Ht.
    rewrite member_other, Hcount, Hc; [reflexivity|].
    rewrite Hl. intros ->. contradiction.
Qed.

Lemma len_from_tokens_witness :
  words <> []
  /\ ~ In default_unk_label words
  /\ __init__ (ArgIterable words) 2 default_unk_label = inr vocab
  /\ run __len__ vocab = (inr 4, vocab).
Proof.
  assert (Hne : words <> []) by discriminate.
  assert (Hnin : ~ In default_unk_label words).
  { vm_compute. intuition discriminate. }
  split; [exact Hne|]. split; [exact Hnin|]. split; [reflexivity|].
  exact (len_from_tokens words 2 default_unk_label vocab Hne Hnin eq_refl).
Defined.

(** X15. [len] is never negative and never more than the number of keys of
    [counts] plus one, and it is 0 exactly when [counts] is empty. *)
Theorem len_bounds v :
  exists n,
    run __len__ v = (inr n, v)
    /\ 0 <= n <= Z.of_nat (length (counts v)) + 1
    /\ (n = 0 <-> counts v = Counter.empty).
Proof.
  eexists. split; [apply run_len|].
  unfold iter_of. rewrite length_app.
  pose proof (filter_length_le (member v) (Counter.keys (counts v))) as Hle.
  unfold Counter.keys in Hle at 2. rewrite length_map in Hle.
  destruct (counts v) as [|e c]; cbn [length] in *.
  - split; [lia|]. split; [reflexivity|]. intros _.
    assert (H0 : length (filter (member v) (Counter.keys [])) = 0%nat)
      by reflexivity.
    rewrite H0. reflexivity.
  - split; [lia|]. split; [lia | discriminate].
Qed.

(** ** Lookup *)

(** X16. Whatever the word, the result of its lookup is a member of the
    vocabulary, and looking the result up again gives it back. *)
Theorem lookup_lands_in_vocabulary v word :
  exists w,
    run (lookup (PyStr word)) v = (inr (Word w), v)
    /\ run (__contains__ w) v = (inr true, v)
    /\ run (lookup (PyStr w)) v = (inr (Word w), v).
Proof.
  destruct (member v word) eqn:Hmem.
  - exists word. rewrite run_lookup_str, run_contains, Hmem. auto.
  - exists (unk_label v).
    rewrite !run_lookup_str, run_contains, Hmem, member_unk_label. auto.
Qed.

(** X17. The generator that [lookup] returns for a sequence of words looks
    each word up when it runs, not when [lookup] was called: run after an
    update, it gives each word that is a member of the updated vocabulary as
    itself and each other word as the label. *)
Theorem lookup_generator_sees_later_update v ws g tokens v' :
  run (lookup (PyIter (map PyStr ws))) v = (inr (Gen g), v) ->
  run (update tokens) v = (inr tt, v') ->
  exists out,
    run (list_ g) v' = (inr out, v')
    /\ length out = length ws
    /\ forall i w, nth_error ws i = Some w ->
         (run (__contains__ w) v' = (inr true, v') ->
          nth_error out i = Some (Word w))
         /\ (run (__contains__ w) v' = (inr false, v') ->
             nth_error out i = Some (Word (unk_label v))).
Proof.
  intros [= <-] Hupd.
  assert (Hl : unk_label v' = unk_label v).
  { rewrite run_update in Hupd. injection Hupd as <-. reflexivity. }
  eexists. split; [apply run_list_words|]. split; [apply length_map|].
  intros i w Hw. rewrite nth_error_map, Hw, run_contains. cbn [option_map].
  split; intros [= ->]; [reflexivity | rewrite Hl; reflexivity].
Qed.

Lemma lookup_generator_sees_later_update_witness :
  exists g v',
    run (lookup (PyIter (map PyStr ["b"; "r"]%string))) vocab
    = (inr (Gen g), vocab)
    /\ run (update ["b"; "b"; "c"]%string) vocab = (inr tt, v')
    /\ run (list_ g) vocab = (inr [Word "<UNK>"; Word "<UNK>"], vocab)
    /\ run (list_ g) v' = (inr [Word "b"; Word "<UNK>"], v')
    /\ exists out,
         run (list_ g) v' = (inr out, v')
         /\ nth_error out 0 = Some (Word "b").
Proof.
  do 2 eexists. split; [reflexivity|]. split; [reflexivity|].
  split; [reflexivity|]. split; [reflexivity|].
  destruct (lookup_generator_sees_later_update
              vocab ["b"; "r"]%string _ ["b"; "b"; "c"]%string _
              eq_refl eq_refl)
    as (out & Hout & _ & Hnth).
  exists out. split; [exact Hout|].
  apply (proj1 (Hnth 0%nat "b"%string eq_refl)). reflexivity.
Defined.

Lemma run_dispatch_supported v o :
  supported o = true ->
  exists r, run (_dispatched_lookup o) v = (inr r, v)
            /\ forall ws, o = PyIter ws -> r = Gen ws.
Proof.
  destruct o as [w|n| |ws]; cbn; try discriminate; intros _.
  - eexists. split; [apply run_lookup_str|]. discriminate.
  - eexists. split; [reflexivity|]. intros ws' [= <-]. reflexivity.
Qed.

Lemma run_dispatch_unsupported v o :
  supported o = false ->
  run (_dispatched_lookup o) v = (inl (TypeError (type o)), v).
Proof.
  destruct o as [w|n| |ws]; cbn; try discriminate; reflexivity.
Qed.

(** X18. Running the generator of a sequence whose elements are all strings
    or iterables gives one result per element, an element that is itself an
    iterable giving a generator that has not run; if some element is
    neither, the run raises [TypeError] for the first such element. The
    vocabulary is left as it was either way. *)
Theorem generator_raises_at_first_unsupported v g :
  (forallb supported g = true ->
   exists out,
     run (list_ g) v = (inr out, v)
     /\ length out = length g
     /\ forall i ws, nth_error g i = Some (PyIter ws) ->
                     nth_error out i = Some (Gen ws))
  /\ (forall pre o post,
        g = pre ++ o :: post ->
        forallb supported pre = true ->
        supported o = false ->
        run (list_ g) v = (inl (TypeError (type o)), v)).
Proof.
  unfold list_. split.
  - induction g as [|o g IH]; cbn [forallb map_m].
    + intros _. exists []. split; [reflexivity|]. split; [reflexivity|].
      intros [|i] ws H; discriminate H.
    + intros Hall. apply andb_true_iff in Hall as [Ho Hg].
      destruct (run_dispatch_supported v o Ho) as (r & Hr & Hgen).
      destruct (IH Hg) as (out & Hout & Hlen & Hnth).
      exists (r :: out).
      rewrite (run_bind_pure _ _ _ _ Hr), (run_bind_pure _ _ _ _ Hout).
      split; [apply run_ret|]. split; [cbn; congruence|].
      intros [|i] ws; cbn [nth_error].
      * intros [= ->]. rewrite (Hgen ws eq_refl). reflexivity.
      * apply Hnth.
  - intros pre o post -> Hpre Ho.
    induction pre as [|p pre IH]; cbn [app map_m forallb] in *.
    + rewrite run_bind, (run_dispatch_unsupported v o Ho). reflexivity.
    + apply andb_true_iff in Hpre as [Hp Hpre].
      destruct (run_dispatch_supported v p Hp) as (r & Hr & _).
      rewrite (run_bind_pure _ _ _ _ Hr), run_bind, (IH Hpre). reflexivity.
Qed.

Lemma generator_raises_at_first_unsupported_witness :
  (exists out,
     run (list_ [PyStr "a"; PyIter [PyStr "b"]]) vocab = (inr out, vocab)
     /\ nth_error out 1 = Some (Gen [PyStr "b"]))
  /\ run (list_ [PyStr "a"; PyNone; PyInt 3]) vocab
     = (inl (TypeError TNoneType), vocab).
Proof.
  split.
  - destruct (proj1 (generator_raises_at_first_unsupported vocab
                       [PyStr "a"; PyIter [PyStr "b"]]) eq_refl)
      as (out & Hout & _ & Hnth).
    exists out. split; [exact Hout|]. apply Hnth. reflexivity.
  - exact (proj2 (generator_raises_at_first_unsupported vocab
                    [PyStr "a"; PyNone; PyInt 3])
             [PyStr "a"] PyNone [PyInt 3] eq_refl eq_refl eq_refl).
Defined.

(** ** What every reachable vocabulary keeps *)

Lemma run_updates batches : forall v,
  run (for_each batches update) v
  = (inr tt,
     mkVocabulary (fold_left bump (concat batches) (counts v))
       (unk_label v) (_cutoff v)).
Proof.
  induction batches as [|tokens batches IH]; intros v;
    cbn [for_each concat fold_left].
  - rewrite vocabulary_eta. reflexivity.
  - rewrite run_bind, run_update, IH. cbn [counts unk_label _cutoff].
    rewrite fold_left_app. reflexivity.
Qed.

(** X19. However many updates follow a construction, the vocabulary keeps
    the label and the cutoff it was constructed with, the cutoff is at least
    1, the keys of its counts stay pairwise distinct, and its counts are
    those of a single update with all the tokens in a row. *)
Theorem updates_keep_label_and_cutoff a c l v0 batches :
  wf_arg a ->
  __init__ a c l = inr v0 ->
  exists v,
    run (for_each batches update) v0 = (inr tt, v)
    /\ unk_label v = l /\ _cutoff v = c /\ 1 <= _cutoff v
    /\ NoDup (Counter.keys (counts v))
    /\ run (update (concat batches)) v0 = (inr tt, v).
Proof.
  intros Hwf Hinit.
  assert (Hreach : reachable v0) by exact (reach_init a c l v0 Hwf Hinit).
  destruct (init_inv _ _ _ _ Hinit) as (Hc & Hl & Hge).
  eexists. split; [apply run_updates|].
  cbn [unk_label _cutoff counts]. rewrite Hc.
  split; [exact Hl|]. split; [reflexivity|]. split; [exact Hge|]. split.
  - apply wf_tally, reachable_wf, Hreach.
  - rewrite run_update, Hc, Hl. reflexivity.
Qed.

Lemma updates_keep_label_and_cutoff_witness :
  wf_arg (ArgIterable words)
  /\ __init__ (ArgIterable words) 2 default_unk_label = inr vocab
  /\ exists v,
       run (for_each [["b"; "b"]; []; ["c"; "x"]]%string update) vocab
       = (inr tt, v)
       /\ unk_label v = default_unk_label /\ _cutoff v = 2.
Proof.
  split; [exact I|]. split; [reflexivity|].
  destruct (updates_keep_label_and_cutoff (ArgIterable words) 2
              default_unk_label vocab [["b"; "b"]; []; ["c"; "x"]]%string
              I eq_refl)
    as (v & Hrun & Hl & Hc & _).
  exists v. auto.
Defined.

(** ** Updates and membership *)

(** X20. After an update, a token other than the label is a member exactly
    when its stored count before the update plus the number of its
    occurrences in the update reaches the cutoff. *)
Theorem update_makes_member_at_cutoff v tokens v' t :
  t <> unk_label v ->
  run (update tokens) v = (inr tt, v') ->
  (run (__contains__ t) v' = (inr true, v')
   <-> _cutoff v
       <= stored_count (counts v) t
          + Z.of_nat (count_occ string_dec tokens t)).
Proof.
  intros Hne. rewrite run_update. intros [= <-].
  rewrite run_contains, member_other by exact Hne.
  cbn [counts _cutoff]. rewrite stored_count_tally, <- Z.geb_le.
  split; [intros [= ->]; reflexivity | intros ->; reflexivity].
Qed.

Lemma update_makes_member_at_cutoff_witness :
  exists v',
    "b"%string <> unk_label vocab
    /\ run (update ["b"; "b"; "c"]%string) vocab = (inr tt, v')
    /\ run (__contains__ "b") vocab = (inr false, vocab)
    /\ run (__contains__ "b") v' = (inr true, v').
Proof.
  assert (Hne : "b"%string <> unk_label vocab) by (vm_compute; discriminate).
  eexists. split; [exact Hne|]. split; [reflexivity|]. split; [reflexivity|].
  apply (update_makes_member_at_cutoff vocab ["b"; "b"; "c"]%string _ "b"%string
           Hne eq_refl).
  vm_compute. discriminate.
Defined.
